(** * fsr_seasonal_app: listing reconciliation

    A shallow embedding of [fsr_seasonal_app.py]: the key normaliser
    ([normalize]), the derivation of category and metro labels from a URL
    ([extract_category_and_metro]), the per-page scraping loop
    ([scrape_company_data]) and the comparison step of [main] (the left
    join of the scraped table with the reference table, the issue labels
    and the rows synthesised for reference keys that were not scraped).

    Text is a [string] of 8-bit characters read as the code points U+0000
    to U+00FF, with Python's own classification of those code points
    ([str.isspace], the [\w] and [\s] classes of [re], [str.lower]). *)

From Stdlib Require Import ZArith NArith Ascii DecimalString.
From Stdlib Require String.
From stdpp Require Import gmap strings list sorting.

Local Open Scope Z_scope.

(** ** Values held by a table cell

    A cell of a data frame read from CSV or built from the scraped
    dictionaries: a missing value ([NaN] or [None], both of which
    [isna] reports), a number, or a string. *)
Inductive cell : Type :=
  | NA
  | Num (z : Z)
  | Str (s : string).

Global Instance cell_eq_dec : EqDecision cell.
Proof. solve_decision. Defined.

(** [Series.isna] and [Series.notna] on one cell. *)
Definition isna (c : cell) : bool :=
  match c with NA => true | _ => false end.

Definition notna (c : cell) : bool := negb (isna c).

(** Python's [!=] on two cells: numbers by value, strings by content, a
    number and a string are never equal, and [NaN] differs from
    everything. *)
Definition cell_ne (a b : cell) : bool :=
  match a, b with
  | Num x, Num y => negb (x =? y)
  | Str s, Str t => negb (String.eqb s t)
  | _, _ => true
  end.

(** ** Python's string operations *)
Module Py.

Definition code (c : ascii) : N := N_of_ascii c.

Definition between (lo hi : N) (c : ascii) : bool :=
  ((lo <=? code c) && (code c <=? hi))%N.

(** [str.isspace] on one character; also the class [\s] of [re] and the
    characters removed by [str.strip()]. *)
Definition isspace (c : ascii) : bool :=
  between 9 13 c || between 28 32 c || between 133 133 c
  || between 160 160 c.

(** [str.isalnum] on one character. *)
Definition isalnum (c : ascii) : bool :=
  between 48 57 c || between 65 90 c || between 97 122 c
  || between 170 170 c || between 178 179 c || between 181 181 c
  || between 185 186 c || between 188 190 c || between 192 214 c
  || between 216 246 c || between 248 255 c.

(** The class [\w] of [re] on a [str] pattern: alphanumeric or the
    underscore. *)
Definition isword (c : ascii) : bool :=
  isalnum c || between 95 95 c.

(** [str.lower] on one character. *)
Definition lower_char (c : ascii) : ascii :=
  if between 65 90 c || between 192 214 c || between 216 222 c
  then ascii_of_N (code c + 32)
  else c.

Fixpoint lower (s : string) : string :=
  match s with
  | EmptyString => EmptyString
  | String c s' => String (lower_char c) (lower s')
  end.

(** Left-to-right substitution of non-overlapping matches, as done by
    [str.replace] and [re.sub]: [m s] is the length of the match that
    starts at the head of [s], if there is one; a match is replaced by
    [repl] and the scan resumes after it ([skip] counts the characters
    of the current match that are still to be passed over). *)
Fixpoint scan (m : string → option nat) (repl : string) (skip : nat)
    (s : string) : string :=
  match s with
  | EmptyString => EmptyString
  | String c s' =>
      match skip with
      | S k => scan m repl k s'
      | O =>
          match m s with
          | Some (S k) => repl +:+ scan m repl k s'
          | _ => String c (scan m repl 0 s')
          end
      end
  end.

(** [s.replace(old, new)] for a non-empty [old]. *)
Definition replace (old new s : string) : string :=
  scan (λ t, if String.prefix old t then Some (String.length old) else None)
       new 0 s.

(** The two shapes of pattern the program uses: one character of a
    class, and one or more characters of a class. *)
Inductive pattern : Type :=
  | Class (p : ascii → bool)
  | Plus (p : ascii → bool).

(** Length of the longest prefix of [s] made of characters of [p]. *)
Fixpoint span (p : ascii → bool) (s : string) : nat :=
  match s with
  | String c s' => if p c then S (span p s') else O
  | EmptyString => O
  end.

Definition match_at (r : pattern) (s : string) : option nat :=
  match r with
  | Class p =>
      match s with
      | String c _ => if p c then Some 1%nat else None
      | EmptyString => None
      end
  | Plus p =>
      match span p s with
      | O => None
      | n => Some n
      end
  end.

(** [re.sub(r, repl, s)]. *)
Definition re_sub (r : pattern) (repl s : string) : string :=
  scan (match_at r) repl 0 s.

(** The pattern [[^\w\s]]. *)
Definition not_word_not_space : pattern :=
  Class (λ c, negb (isword c || isspace c)).

(** The pattern [\s+]. *)
Definition spaces : pattern := Plus isspace.

(** [s.lstrip(chars)] and [s.rstrip(chars)], the set [chars] given by
    its membership test. *)
Fixpoint lstrip (p : ascii → bool) (s : string) : string :=
  match s with
  | String c s' => if p c then lstrip p s' else s
  | EmptyString => EmptyString
  end.

Fixpoint rstrip (p : ascii → bool) (s : string) : string :=
  match s with
  | EmptyString => EmptyString
  | String c s' =>
      match rstrip p s' with
      | EmptyString => if p c then EmptyString else String c EmptyString
      | r => String c r
      end
  end.

(** [s.strip(chars)]; [s.strip()] is [strip isspace s]. *)
Definition strip (p : ascii → bool) (s : string) : string :=
  rstrip p (lstrip p s).

(** [s.split(sep)] for a separator of one character: never the empty
    list, [""] splits into [[""]]. *)
Fixpoint split (sep : ascii) (s : string) : list string :=
  match s with
  | EmptyString => [EmptyString]
  | String c s' =>
      if Ascii.eqb c sep then EmptyString :: split sep s'
      else
        match split sep s' with
        | h :: t => String c h :: t
        | [] => [String c EmptyString]
        end
  end.

(** [str(n)] for an integer. *)
Definition str_of_int (z : Z) : string :=
  DecimalString.NilZero.string_of_int (Z.to_int z).

End Py.

(** ** The key normaliser *)

(** [normalize(text)]: anything that is not a [str] gives the empty
    string. *)
Definition normalize (text : cell) : string :=
  match text with
  | Str text =>
      let text := Py.lower text in
      let text := Py.replace "&" "and" text in
      let text := Py.re_sub Py.not_word_not_space "" text in
      let text := Py.re_sub Py.spaces " " text in
      Py.strip Py.isspace text
  | _ => ""
  end.

(** ** Category and metro labels of a URL *)

(** The part of [urllib.parse.ParseResult] the program reads. *)
Record ParseResult : Type := {
  scheme : string;
  netloc : string;
  path : string;
}.

Definition is_slash (c : ascii) : bool := Ascii.eqb c "/".

(** [extract_category_and_metro(url)]. [urlparse] is the standard
    library's; [None] stands for a call that raises, which the [except]
    clause turns into the two [unknown] labels. *)
Definition extract_category_and_metro
    (urlparse : string → option ParseResult) (url : string)
    : string * string :=
  match urlparse url with
  | Some parsed =>
      let parts := Py.split "/" (Py.strip is_slash (path parsed)) in
      let category :=
        if (0 <? length parts)%nat
        then Py.replace "-" " " (nth 0 parts "") else "unknown" in
      let metro :=
        if (1 <? length parts)%nat
        then Py.replace "-" " " (nth 1 parts "") else "unknown" in
      (category, metro)
  | None => ("unknown", "unknown")
  end.

(** ** Scraping one category page *)

(** One entry of [results]: the dictionary appended for a company. *)
Module Item.
Record t : Type := mk {
  url : string;
  category : string;
  metro : string;
  position : Z;
  name : string;
}.
End Item.

(** A [<meta itemprop="name">] tag, with its [content] attribute if it has
    one. *)
Record meta_tag : Type := { content : option string }.

(** A [div.company-row] block, seen through [block.find("meta", ...)]:
    the first such tag inside it, if any. *)
Record block : Type := { find_name_meta : option meta_tag }.

(** What the request and the parsing of its body gave: an exception, or a
    status code with the [company-row] blocks of the page in document
    order. *)
Inductive response : Type :=
  | Raised
  | Reply (status_code : Z) (company_blocks : list block).

Definition block_name (b : block) : string :=
  match find_name_meta b with
  | Some {| content := Some v |} => Py.strip Py.isspace v
  | _ => "N/A"
  end.

(** The loop [for position, block in enumerate(company_blocks, start=1)],
    [position] being the index of the next block. *)
Fixpoint scrape_blocks (url category metro : string) (position : Z)
    (company_blocks : list block) : list Item.t :=
  match company_blocks with
  | [] => []
  | b :: rest =>
      let name := block_name b in
      let results := scrape_blocks url category metro (position + 1) rest in
      if negb (String.eqb name "") && negb (String.eqb name "N/A")
      then Item.mk url category metro position name :: results
      else results
  end.

Definition scrape_company_data
    (urlparse : string → option ParseResult) (url : string)
    (resp : response) : list Item.t :=
  match resp with
  | Raised => []
  | Reply status_code company_blocks =>
      if negb (status_code =? 200) then []
      else
        let '(category, metro) := extract_category_and_metro urlparse url in
        scrape_blocks url category metro 1 company_blocks
  end.

(** ** The comparison step of [main] *)

(** One row of the uploaded reference table [df], once the column
    [FSR Position] exists. A number cell holds the integer written in the
    file. *)
Module Input.
Record t : Type := mk {
  Company_Web_Profile_URL : cell;
  PublishedName : cell;
  Category : cell;
  Metro : cell;
  FSR_Position : cell;
}.
End Input.

(** One row of [merged], of [missing_rows] and of [final_df]. *)
Record row : Type := {
  url : cell;
  category : cell;
  metro : cell;
  position : cell;
  name : cell;
  match_key : string;
  Company_Web_Profile_URL : cell;
  PublishedName : cell;
  Category : cell;
  Metro : cell;
  FSR_Position : cell;
  comparison_issue : string;
}.

Definition fillna (v : string) (c : cell) : cell :=
  match c with NA => Str v | _ => c end.

(** [astype(str)] on one cell of a column whose numbers print as
    [number_str] says: [str] of a number depends on the type pandas gave
    the column (["75001"] in a column of integers, ["75001.0"] in a column
    of floats, which a numeric column with an empty cell is). *)
Definition astype_str (number_str : Z → string) (c : cell) : string :=
  match c with
  | Str s => s
  | Num z => number_str z
  | NA => "nan"
  end.

(** [fillna("").astype(str)] on the [Metro] cell of one row. *)
Definition metro_as_str (number_str : Z → string) (r : Input.t) : Input.t :=
  Input.mk (Input.Company_Web_Profile_URL r) (Input.PublishedName r)
    (Input.Category r)
    (Str (astype_str number_str (fillna "" (Input.Metro r))))
    (Input.FSR_Position r).

(** [df["Metro"] = df["Metro"].fillna("").astype(str)] on the table.
    [number_text column z] is the text that pandas and Python give for the
    number read from the integer [z] in a column holding the cells
    [column]; it is the libraries' and is taken as given. *)
Definition metro_column_as_str (number_text : list cell → Z → string)
    (df : list Input.t) : list Input.t :=
  metro_as_str (number_text (Input.Metro <$> df)) <$> df.

(** The column [df["match_key"]]. *)
Definition input_key (r : Input.t) : string :=
  normalize (Input.PublishedName r) +:+ "|" +:+
  normalize (Input.Category r) +:+ "|" +:+
  normalize (Input.Metro r).

(** The column [out_df["match_key"]], the [metro] column having gone
    through [fillna("").astype(str)]; that column holds strings only. *)
Definition output_key (s : Item.t) : string :=
  normalize (Str (Item.name s)) +:+ "|" +:+
  normalize (Str (Item.category s)) +:+ "|" +:+
  normalize (Str (astype_str Py.str_of_int (fillna "" (Str (Item.metro s))))).

(** A row of the left join: the scraped record with a reference row of
    the same key, or with every reference column missing. The new column
    [comparison_issue] starts as the empty string. *)
Definition joined (s : Item.t) (r : Input.t) : row :=
  {| url := Str (Item.url s);
     category := Str (Item.category s);
     metro := Str (astype_str Py.str_of_int (fillna "" (Str (Item.metro s))));
     position := Num (Item.position s);
     name := Str (Item.name s);
     match_key := output_key s;
     Company_Web_Profile_URL := Input.Company_Web_Profile_URL r;
     PublishedName := Input.PublishedName r;
     Category := Input.Category r;
     Metro := Input.Metro r;
     FSR_Position := Input.FSR_Position r;
     comparison_issue := "" |}.

Definition left_only (s : Item.t) : row :=
  joined s (Input.mk NA NA NA NA NA).

(** The reference rows that share the key of [s], in the order of [df]. *)
Definition matches (df : list Input.t) (s : Item.t) : list Input.t :=
  filter (λ r, input_key r = output_key s) df.

(** The rows that [pd.merge(out_df, df, on="match_key", how="left")]
    gives for one scraped record. *)
Definition merge_one (df : list Input.t) (s : Item.t) : list row :=
  match matches df s with
  | [] => [left_only s]
  | rs => joined s <$> rs
  end.

Definition merge_left (out_df : list Item.t) (df : list Input.t)
    : list row :=
  flat_map (merge_one df) out_df.

Definition set_issue (v : string) (r : row) : row :=
  {| url := url r; category := category r; metro := metro r;
     position := position r; name := name r; match_key := match_key r;
     Company_Web_Profile_URL := Company_Web_Profile_URL r;
     PublishedName := PublishedName r; Category := Category r;
     Metro := Metro r; FSR_Position := FSR_Position r;
     comparison_issue := v |}.

(** [frame.loc[mask, "comparison_issue"] = v]. *)
Definition loc_one (mask : row → bool) (v : string) (r : row) : row :=
  if mask r then set_issue v r else r.

Definition loc_set (mask : row → bool) (v : string) (frame : list row)
    : list row :=
  loc_one mask v <$> frame.

Definition mask_missing_from_input (r : row) : bool :=
  isna (PublishedName r).

Definition mask_position_mismatch (r : row) : bool :=
  String.eqb (comparison_issue r) ""
  && notna (position r)
  && notna (FSR_Position r)
  && cell_ne (position r) (FSR_Position r).

(** [merged] after the two assignments to [comparison_issue]. *)
Definition merged (out_df : list Item.t) (df : list Input.t) : list row :=
  loc_set mask_position_mismatch "position mismatch"
    (loc_set mask_missing_from_input "missing from input"
       (merge_left out_df df)).

Definition scraped_keys (out_df : list Item.t) : gset string :=
  list_to_set (output_key <$> out_df).

Definition input_keys (df : list Input.t) : gset string :=
  list_to_set (input_key <$> df).

Definition missing_keys (out_df : list Item.t) (df : list Input.t)
    : gset string :=
  input_keys df ∖ scraped_keys out_df.

(** One row of [missing_rows]: the reference row with its key, the issue
    label and the five scraped columns assigned in the source. *)
Definition missing_row (r : Input.t) : row :=
  {| url := NA;
     category := Input.Category r;
     metro := Input.Metro r;
     position := NA;
     name := NA;
     match_key := input_key r;
     Company_Web_Profile_URL := Input.Company_Web_Profile_URL r;
     PublishedName := Input.PublishedName r;
     Category := Input.Category r;
     Metro := Input.Metro r;
     FSR_Position := Input.FSR_Position r;
     comparison_issue := "missing from website" |}.

Definition missing_rows (out_df : list Item.t) (df : list Input.t)
    : list row :=
  missing_row <$> filter (λ r, input_key r ∈ missing_keys out_df df) df.

(** Lines 111 to 153: [final_df] from the scraped records and the
    reference table. *)
Definition final_df (number_text : list cell → Z → string)
    (all_data : list Item.t) (df : list Input.t) : list row :=
  let df := metro_column_as_str number_text df in
  merged all_data df ++ missing_rows all_data df.

(** What [main] shows once the pages have been scraped. *)
Inductive outcome : Type :=
  | Report (final_df : list row)
  | Warning (message : string).

(** [main] from line 110 on: [df] is the reference table and [all_data]
    the records of all scraped pages; [number_text] is how the numbers of
    a column print. An empty list is false in Python. *)
Definition main (number_text : list cell → Z → string)
    (df : list Input.t) (all_data : list Item.t) : outcome :=
  match all_data with
  | [] => Warning "No company data was found."
  | _ :: _ => Report (final_df number_text all_data df)
  end.

(** ** The normaliser as the specification words it

    The five steps, each written character by character, to be compared
    with the calls of [normalize]. *)
Module Spec.

(** Lowercasing. *)
Fixpoint lowercase (s : string) : string :=
  match s with
  | EmptyString => EmptyString
  | String c s' => String (Py.lower_char c) (lowercase s')
  end.

(** Replacing [&] with the word [and]. *)
Fixpoint ampersand_to_and (s : string) : string :=
  match s with
  | EmptyString => EmptyString
  | String c s' =>
      if Ascii.eqb c "&"
      then String "a" (String "n" (String "d" (ampersand_to_and s')))
      else String c (ampersand_to_and s')
  end.

(** Deleting every character that is neither a word character nor
    whitespace. *)
Fixpoint keep_word_and_space (s : string) : string :=
  match s with
  | EmptyString => EmptyString
  | String c s' =>
      if Py.isword c || Py.isspace c
      then String c (keep_word_and_space s')
      else keep_word_and_space s'
  end.

(** Collapsing each run of whitespace to a single space; [in_run] tells
    whether the previous character was whitespace. *)
Fixpoint collapse (in_run : bool) (s : string) : string :=
  match s with
  | EmptyString => EmptyString
  | String c s' =>
      if Py.isspace c
      then if in_run then collapse true s'
           else String " " (collapse true s')
      else String c (collapse false s')
  end.

Fixpoint all_space (s : string) : bool :=
  match s with
  | EmptyString => true
  | String c s' => Py.isspace c && all_space s'
  end.

Fixpoint drop_leading (s : string) : string :=
  match s with
  | EmptyString => EmptyString
  | String c s' => if Py.isspace c then drop_leading s' else s
  end.

Fixpoint drop_trailing (s : string) : string :=
  match s with
  | EmptyString => EmptyString
  | String c s' =>
      if all_space s then EmptyString else String c (drop_trailing s')
  end.

(** Trimming leading and trailing whitespace. *)
Definition trim (s : string) : string := drop_trailing (drop_leading s).

Definition steps (s : string) : string :=
  trim (collapse false (keep_word_and_space (ampersand_to_and (lowercase s)))).

End Spec.

(** ** The shape of a normalised key *)

Fixpoint all_chars (p : ascii → bool) (s : string) : bool :=
  match s with
  | EmptyString => true
  | String c s' => p c && all_chars p s'
  end.

(** A character that every step of [normalize] leaves alone, whitespace
    apart: already lowercase, not [&], and a word character or
    whitespace. *)
Definition stable (c : ascii) : bool :=
  Ascii.eqb (Py.lower_char c) c
  && negb (Ascii.eqb c "&")
  && (Py.isword c || Py.isspace c).

(** [s] does not start with whitespace. *)
Definition head_ok (s : string) : bool :=
  match s with
  | EmptyString => true
  | String c _ => negb (Py.isspace c)
  end.

(** [s] starts with a character that is not whitespace. *)
Definition head_solid (s : string) : bool :=
  match s with
  | EmptyString => false
  | String c _ => negb (Py.isspace c)
  end.

(** Every whitespace character of [s] is a space that is not followed by
    whitespace. *)
Fixpoint loosely_spaced (s : string) : bool :=
  match s with
  | EmptyString => true
  | String c s' =>
      (if Py.isspace c then Ascii.eqb c " " && head_ok s' else true)
      && loosely_spaced s'
  end.

(** Every whitespace character of [s] is a space followed by a character
    that is not whitespace. *)
Fixpoint spaced (s : string) : bool :=
  match s with
  | EmptyString => true
  | String c s' =>
      (if Py.isspace c then Ascii.eqb c " " && head_solid s' else true)
      && spaced s'
  end.

(** ** Reading a row of the report *)

(** The two assignments to [comparison_issue], seen on one row. *)
Definition classify (r : row) : row :=
  loc_one mask_position_mismatch "position mismatch"
    (loc_one mask_missing_from_input "missing from input" r).

(** The rows of [merged] that come from one scraped record. *)
Definition rows_for (df : list Input.t) (s : Item.t) : list row :=
  classify <$> merge_one df s.

(** The scraped columns of [c] are those of the record [s]. *)
Definition from_scraped (s : Item.t) (c : row) : Prop :=
  url c = Str (Item.url s)
  ∧ category c = Str (Item.category s)
  ∧ metro c = Str (Item.metro s)
  ∧ position c = Num (Item.position s)
  ∧ name c = Str (Item.name s).

(** The reference columns of [c] are those of the reference row [r]. *)
Definition from_reference (r : Input.t) (c : row) : Prop :=
  Company_Web_Profile_URL c = Input.Company_Web_Profile_URL r
  ∧ PublishedName c = Input.PublishedName r
  ∧ Category c = Input.Category r
  ∧ Metro c = Input.Metro r
  ∧ FSR_Position c = Input.FSR_Position r.

(** Every reference column of [c] is missing. *)
Definition no_reference (c : row) : Prop :=
  Company_Web_Profile_URL c = NA
  ∧ PublishedName c = NA
  ∧ Category c = NA
  ∧ Metro c = NA
  ∧ FSR_Position c = NA.

(** No scraped record has the key of the reference row [r]. *)
Definition unmatched (all_data : list Item.t) (r : Input.t) : Prop :=
  Forall (λ s, output_key s ≠ input_key r) all_data.

Global Instance unmatched_dec all_data r : Decision (unmatched all_data r).
Proof. unfold unmatched. apply _. Defined.

(** ** Sample records *)

Definition ace : Input.t :=
  Input.mk (Str "https://fsr.example/plumbers/austin/ace-plumbing")
    (Str "Ace Plumbing") (Str "plumbers") (Str "austin") (Num 1).

Definition ace_listed (position : Z) : Item.t :=
  Item.mk "https://fsr.example/plumbers/austin" "plumbers" "austin"
    position "Ace Plumbing".

Definition bob : Item.t :=
  Item.mk "https://fsr.example/tires/dallas" "tires" "dallas" 1
    "Bob's Tires".

(** A reference row whose [PublishedName] cell is empty, and a listing
    whose name is made of punctuation only: both normalise to an empty
    name. *)
Definition nameless : Input.t :=
  Input.mk (Str "https://fsr.example/plumbers/austin/profile-17")
    NA (Str "plumbers") (Str "austin") (Num 1).

Definition stars : Item.t :=
  Item.mk "https://fsr.example/plumbers/austin" "plumbers" "austin" 1 "***".

(** The reference row of Ace Plumbing with a position that is not a
    number. *)
Definition ace_worded : Input.t :=
  Input.mk (Str "https://fsr.example/plumbers/austin/ace-plumbing")
    (Str "Ace Plumbing") (Str "plumbers") (Str "austin") (Str "first").

(** A parse table for the sample URLs, standing for [urlparse] on them;
    the last one is rejected as [urlparse] rejects an unbalanced
    bracket in the host. *)
Definition urlparse_sample (url : string) : option ParseResult :=
  if String.eqb url "https://fsr.example/plumbers/austin"
  then Some {| scheme := "https"; netloc := "fsr.example";
               path := "/plumbers/austin" |}
  else if String.eqb url "https://fsr.example/"
  then Some {| scheme := "https"; netloc := "fsr.example"; path := "/" |}
  else if String.eqb url "https://fsr.example/hvac-repair"
  then Some {| scheme := "https"; netloc := "fsr.example";
               path := "/hvac-repair" |}
  else None.

Definition unnamed_block : block := {| find_name_meta := None |}.

Definition named_block (v : string) : block :=
  {| find_name_meta := Some {| content := Some v |} |}.

(** ** The alphabet of a key *)

(** A character that a normalised key can hold: a word character that
    lowercasing leaves alone, or the space. *)
Definition key_char (c : ascii) : bool :=
  (Py.isword c && Ascii.eqb (Py.lower_char c) c) || Ascii.eqb c " ".

Definition not_bar (c : ascii) : bool := negb (Ascii.eqb c "|").

(** ** Scraping every page *)

(** A name that the scraping loop keeps. *)
Definition usable_name (n : string) : Prop := n ≠ "" ∧ n ≠ "N/A".

Global Instance usable_name_dec n : Decision (usable_name n).
Proof. unfold usable_name. apply _. Defined.

(** Lines 102 to 108 of [main]: the records of all pages, in the order of
    [urls]; [fetch] gives the outcome of the request for each URL. *)
Definition collect_all_data
    (urlparse : string → option ParseResult) (fetch : string → response)
    (urls : list string) : list Item.t :=
  flat_map (λ url, scrape_company_data urlparse url (fetch url)) urls.

(** A page of three blocks, the second without a name. *)
Definition sample_page : response :=
  Reply 200 [named_block " Ace Plumbing "; unnamed_block;
             named_block "Best Pipes"].

(** Requests of the sample run: the plumbers page answers, the others
    are not found. *)
Definition fetch_sample (url : string) : response :=
  if String.eqb url "https://fsr.example/plumbers/austin"
  then sample_page else Reply 404 [].

(** ** The category pages to scrape *)

Definition not_slash (c : ascii) : bool := negb (is_slash c).

(** A character of a label: neither a slash nor a hyphen. *)
Definition label_char (c : ascii) : bool :=
  negb (Ascii.eqb c "/") && negb (Ascii.eqb c "-").

(** [Series.dropna()] and [Series.unique()]: the values that are present,
    then the first occurrence of each. *)
Definition dropna (column : list cell) : list cell :=
  filter (λ c, c ≠ NA) column.

Fixpoint unique_from (seen column : list cell) : list cell :=
  match column with
  | [] => []
  | c :: rest =>
      if decide (c ∈ seen) then unique_from seen rest
      else c :: unique_from (c :: seen) rest
  end.

Definition unique (column : list cell) : list cell := unique_from [] column.

(** The body of the loop of [extract_category_urls] for one value: the
    base URL to add, or [None] when nothing is added, because the path has
    fewer than two parts or because an exception was raised ([urlparse]
    raised on the string, or the value is a number, on which [urlparse]
    or [strip] raises). *)
Definition base_url_of (urlparse : string → option ParseResult)
    (full_url : cell) : option string :=
  match full_url with
  | Str full_url =>
      match urlparse full_url with
      | Some parsed =>
          let parts := Py.split "/" (Py.strip is_slash (path parsed)) in
          if (2 <=? length parts)%nat
          then Some (scheme parsed +:+ "://" +:+ netloc parsed +:+ "/"
                     +:+ nth 0 parts "" +:+ "/" +:+ nth 1 parts "")
          else None
      | None => None
      end
  | _ => None
  end.

(** One turn of the loop: [base_urls.add(base_url)], or nothing. *)
Definition add_base_url (urlparse : string → option ParseResult)
    (base_urls : gset string) (full_url : cell) : gset string :=
  match base_url_of urlparse full_url with
  | Some base_url => {[base_url]} ∪ base_urls
  | None => base_urls
  end.

(** [extract_category_urls(df, column_name)], given the column: the set
    [base_urls]. The list that the function returns enumerates this set
    in an order that Python leaves open. *)
Definition extract_category_urls (urlparse : string → option ParseResult)
    (column : list cell) : gset string :=
  foldl (add_base_url urlparse) ∅ (unique (dropna column)).

(** A parse table for sample profile URLs. *)
Definition urlparse_profiles (url : string) : option ParseResult :=
  if String.eqb url "https://fsr.example/plumbers/austin/ace-plumbing"
  then Some {| scheme := "https"; netloc := "fsr.example";
               path := "/plumbers/austin/ace-plumbing" |}
  else if String.eqb url "https://fsr.example/plumbers/austin/best-pipes/"
  then Some {| scheme := "https"; netloc := "fsr.example";
               path := "/plumbers/austin/best-pipes/" |}
  else if String.eqb url "https://fsr.example/hvac-repair/san-antonio"
  then Some {| scheme := "https"; netloc := "fsr.example";
               path := "/hvac-repair/san-antonio" |}
  else if String.eqb url "https://fsr.example/about"
  then Some {| scheme := "https"; netloc := "fsr.example";
               path := "/about" |}
  else None.

(** Both tables together: profile URLs and page URLs. *)
Definition urlparse_site (url : string) : option ParseResult :=
  match urlparse_profiles url with
  | Some parsed => Some parsed
  | None => urlparse_sample url
  end.

(** The text of the small integers of the samples: a numeric column with
    an empty cell holds floats, which print with a fractional part. *)
Definition number_text_sample (column : list cell) (z : Z) : string :=
  if existsb isna column then Py.str_of_int z +:+ ".0"
  else Py.str_of_int z.

(** A reference table whose [Metro] column holds postal codes, one of
    them missing, and the listing of Ace Plumbing scraped under the code
    of its row. *)
Definition ace_coded : Input.t :=
  Input.mk (Str "https://fsr.example/plumbers/75001/ace-plumbing")
    (Str "Ace Plumbing") (Str "plumbers") (Num 75001) (Num 1).

Definition best_uncoded : Input.t :=
  Input.mk (Str "https://fsr.example/plumbers/best-pipes")
    (Str "Best Pipes") (Str "plumbers") NA (Num 2).

Definition ace_listed_coded : Item.t :=
  Item.mk "https://fsr.example/plumbers/75001" "plumbers" "75001" 1
    "Ace Plumbing".

(** * Properties *)

(** ** Characters *)

Ltac each_char c :=
  destruct c as [[] [] [] [] [] [] [] []]; vm_compute.

Lemma lower_char_idem c : Py.lower_char (Py.lower_char c) = Py.lower_char c.
Proof. each_char c; reflexivity. Qed.

(** ** The scanning substitution against the character-wise steps *)

Lemma lower_lowercase s : Py.lower s = Spec.lowercase s.
Proof. induction s as [|c s IH]; simpl; congruence. Qed.

Lemma prefix_amp c s : String.prefix "&" (String c s) = Ascii.eqb c "&".
Proof.
  cbn [String.prefix]. destruct (ascii_dec "&" c) as [<-|Hne].
  - destruct s; reflexivity.
  - symmetry. apply Ascii.eqb_neq. congruence.
Qed.

Lemma replace_amp s : Py.replace "&" "and" s = Spec.ampersand_to_and s.
Proof.
  unfold Py.replace.
  set (m := λ t, if String.prefix "&" t then _ else _).
  induction s as [|c s IH]; [reflexivity|].
  cbn [Py.scan Spec.ampersand_to_and].
  replace (m (String c s)) with (if Ascii.eqb c "&" then Some 1%nat else None)
    by (unfold m; rewrite prefix_amp; reflexivity).
  destruct (Ascii.eqb c "&"); rewrite IH; reflexivity.
Qed.

Lemma sub_not_word_not_space s :
  Py.re_sub Py.not_word_not_space "" s = Spec.keep_word_and_space s.
Proof.
  unfold Py.re_sub. induction s as [|c s IH]; [reflexivity|].
  cbn [Py.scan Spec.keep_word_and_space Py.match_at Py.not_word_not_space].
  destruct (Py.isword c || Py.isspace c); cbn [negb]; rewrite IH; reflexivity.
Qed.

Lemma scan_spaces s :
  Py.scan (Py.match_at Py.spaces) " " (Py.span Py.isspace s) s
    = Spec.collapse true s
  ∧ Py.scan (Py.match_at Py.spaces) " " 0 s = Spec.collapse false s.
Proof.
  induction s as [|c s [IH1 IH0]]; [split; reflexivity|].
  cbn [Py.scan Spec.collapse Py.match_at Py.spaces Py.span].
  destruct (Py.isspace c); cbn [Py.scan]; rewrite ?IH1, ?IH0; split; reflexivity.
Qed.

Lemma sub_spaces s : Py.re_sub Py.spaces " " s = Spec.collapse false s.
Proof. apply scan_spaces. Qed.

Lemma lstrip_drop_leading s : Py.lstrip Py.isspace s = Spec.drop_leading s.
Proof. induction s as [|c s IH]; simpl; [|rewrite IH]; reflexivity. Qed.

Lemma rstrip_empty s :
  Py.rstrip Py.isspace s = "" ↔ Spec.all_space s = true.
Proof.
  induction s as [|c s IH]; simpl; [tauto|].
  destruct (Py.rstrip Py.isspace s) eqn:E.
  - destruct (Py.isspace c); simpl; [tauto|]. split; discriminate.
  - split; [discriminate|]. intros [_ H]%andb_prop.
    apply IH in H. discriminate.
Qed.

Lemma rstrip_drop_trailing s : Py.rstrip Py.isspace s = Spec.drop_trailing s.
Proof.
  induction s as [|c s IH]; [reflexivity|].
  cbn [Py.rstrip Spec.drop_trailing Spec.all_space].
  destruct (Py.rstrip Py.isspace s) as [|d r] eqn:E.
  - assert (Spec.all_space s = true) as -> by (apply rstrip_empty, E).
    rewrite andb_true_r. destruct (Py.isspace c); [reflexivity|].
    rewrite <- IH. reflexivity.
  - assert (Spec.all_space s = false) as ->.
    { destruct (Spec.all_space s) eqn:F; [|reflexivity].
      apply rstrip_empty in F. congruence. }
    rewrite andb_false_r, <- IH. reflexivity.
Qed.

Lemma strip_trim s : Py.strip Py.isspace s = Spec.trim s.
Proof.
  unfold Py.strip, Spec.trim.
  rewrite lstrip_drop_leading. apply rstrip_drop_trailing.
Qed.

Lemma normalize_str s : normalize (Str s) = Spec.steps s.
Proof.
  unfold normalize, Spec.steps.
  rewrite lower_lowercase, replace_amp, sub_not_word_not_space, sub_spaces.
  apply strip_trim.
Qed.

(** C6. [normalize] is total; on a value that is not a string (a missing
    value or a number) it returns the empty string, and on a string it
    returns what the five steps give in order: lowercase, [&] to [and],
    delete what is neither word character nor whitespace, collapse
    whitespace runs to one space, trim. In particular ["A & B, Inc."] and
    ["a and b inc"] normalise to the same key. *)
Theorem normalize_refines_steps :
  normalize NA = ""
  ∧ (∀ z, normalize (Num z) = "")
  ∧ (∀ s, normalize (Str s) = Spec.steps s)
  ∧ normalize (Str "A & B, Inc.") = normalize (Str "a and b inc").
Proof.
  split; [reflexivity|]. split; [reflexivity|].
  split; [apply normalize_str|]. vm_compute. reflexivity.
Qed.

(** ** Idempotence of the normaliser *)

Lemma stable_and : stable "a" = true ∧ stable "n" = true ∧ stable "d" = true
  ∧ stable " " = true.
Proof. vm_compute. auto. Qed.

Lemma stable_lower c :
  Ascii.eqb (Py.lower_char c) "&" = false →
  Py.isword (Py.lower_char c) || Py.isspace (Py.lower_char c) = true →
  stable (Py.lower_char c) = true.
Proof.
  intros Hamp Hkeep. unfold stable.
  rewrite lower_char_idem, Ascii.eqb_refl, Hamp, Hkeep. reflexivity.
Qed.

Lemma per_char_steps_stable s :
  all_chars stable
    (Spec.keep_word_and_space (Spec.ampersand_to_and (Spec.lowercase s)))
  = true.
Proof.
  induction s as [|c s IH]; [reflexivity|].
  cbn [Spec.lowercase Spec.ampersand_to_and].
  destruct (Ascii.eqb (Py.lower_char c) "&") eqn:Hamp.
  - change (all_chars stable (String "a" (String "n" (String "d"
      (Spec.keep_word_and_space (Spec.ampersand_to_and (Spec.lowercase s))))))
      = true).
    cbn [all_chars]. rewrite IH. reflexivity.
  - cbn [Spec.keep_word_and_space].
    destruct (Py.isword (Py.lower_char c) || Py.isspace (Py.lower_char c))
      eqn:Hkeep; [|exact IH].
    cbn [all_chars]. rewrite IH, stable_lower by assumption. reflexivity.
Qed.

Lemma collapse_all_chars p b s :
  p " "%char = true → all_chars p s = true →
  all_chars p (Spec.collapse b s) = true.
Proof.
  intros Hsp. revert b. induction s as [|c s IH]; intros b; [reflexivity|].
  cbn [all_chars Spec.collapse]. intros [Hc Hs]%andb_prop.
  destruct (Py.isspace c); [destruct b|]; cbn [all_chars];
    rewrite ?Hsp, ?Hc, ?IH by assumption; auto.
Qed.

Lemma drop_leading_all_chars p s :
  all_chars p s = true → all_chars p (Spec.drop_leading s) = true.
Proof.
  induction s as [|c s IH]; [reflexivity|].
  cbn [Spec.drop_leading]. destruct (Py.isspace c); [|trivial].
  cbn [all_chars]. intros [_ Hs]%andb_prop. auto.
Qed.

Lemma drop_trailing_all_chars p s :
  all_chars p s = true → all_chars p (Spec.drop_trailing s) = true.
Proof.
  induction s as [|c s IH]; [reflexivity|].
  cbn [Spec.drop_trailing]. destruct (Spec.all_space (String c s)); [reflexivity|].
  cbn [all_chars]. intros [Hc Hs]%andb_prop. rewrite Hc, IH by assumption.
  reflexivity.
Qed.

Lemma steps_stable s : all_chars stable (Spec.steps s) = true.
Proof.
  unfold Spec.steps, Spec.trim.
  apply drop_trailing_all_chars, drop_leading_all_chars, collapse_all_chars;
    [apply stable_and | apply per_char_steps_stable].
Qed.

Lemma collapse_true_head_ok s : head_ok (Spec.collapse true s) = true.
Proof.
  induction s as [|c s IH]; [reflexivity|].
  cbn [Spec.collapse]. destruct (Py.isspace c) eqn:Hc; [exact IH|].
  cbn [head_ok]. rewrite Hc. reflexivity.
Qed.

Lemma collapse_loosely_spaced b s : loosely_spaced (Spec.collapse b s) = true.
Proof.
  revert b. induction s as [|c s IH]; intros b; [reflexivity|].
  cbn [Spec.collapse]. destruct (Py.isspace c) eqn:Hc.
  - destruct b; [apply IH|].
    cbn [loosely_spaced]. rewrite IH, collapse_true_head_ok. reflexivity.
  - cbn [loosely_spaced]. rewrite Hc, IH. reflexivity.
Qed.

Lemma drop_leading_loosely_spaced s :
  loosely_spaced s = true → loosely_spaced (Spec.drop_leading s) = true.
Proof.
  induction s as [|c s IH]; [reflexivity|].
  cbn [Spec.drop_leading]. destruct (Py.isspace c); [|trivial].
  cbn [loosely_spaced]. intros [_ Hs]%andb_prop. auto.
Qed.

Lemma drop_leading_head_ok s : head_ok (Spec.drop_leading s) = true.
Proof.
  induction s as [|c s IH]; [reflexivity|].
  cbn [Spec.drop_leading]. destruct (Py.isspace c) eqn:Hc; [exact IH|].
  cbn [head_ok]. rewrite Hc. reflexivity.
Qed.

Lemma head_ok_solid s :
  head_ok s = true → Spec.all_space s = false → head_solid s = true.
Proof. destruct s; [discriminate 2|]. trivial. Qed.

Lemma head_solid_not_all_space s :
  head_solid s = true → Spec.all_space s = false.
Proof.
  destruct s as [|c s]; [discriminate|]. cbn [head_solid Spec.all_space].
  intros ->%negb_true_iff. reflexivity.
Qed.

Lemma drop_trailing_head_solid s :
  head_solid s = true → head_solid (Spec.drop_trailing s) = true.
Proof.
  intros H. pose proof (head_solid_not_all_space _ H) as Hns.
  destruct s as [|c s]; [discriminate|].
  cbn [Spec.drop_trailing]. rewrite Hns. exact H.
Qed.

Lemma drop_trailing_head_ok s :
  head_ok s = true → head_ok (Spec.drop_trailing s) = true.
Proof.
  destruct s as [|c s]; [reflexivity|]. cbn [Spec.drop_trailing].
  destruct (Spec.all_space (String c s)); [reflexivity|]. trivial.
Qed.

Lemma drop_trailing_spaced s :
  loosely_spaced s = true → spaced (Spec.drop_trailing s) = true.
Proof.
  induction s as [|c s IH]; [reflexivity|].
  cbn [loosely_spaced Spec.drop_trailing]. intros [Hc Hs]%andb_prop.
  destruct (Spec.all_space (String c s)) eqn:Hall; [reflexivity|].
  cbn [spaced]. rewrite IH by assumption. rewrite andb_true_r.
  cbn [Spec.all_space] in Hall.
  destruct (Py.isspace c); [|reflexivity].
  cbn [andb] in Hall. apply andb_prop in Hc as [-> Hhead].
  rewrite drop_trailing_head_solid; [reflexivity|].
  apply head_ok_solid; assumption.
Qed.

Lemma steps_tidy s :
  head_ok (Spec.steps s) = true ∧ spaced (Spec.steps s) = true.
Proof.
  unfold Spec.steps, Spec.trim. split.
  - apply drop_trailing_head_ok, drop_leading_head_ok.
  - apply drop_trailing_spaced, drop_leading_loosely_spaced,
      collapse_loosely_spaced.
Qed.

(** The steps on a string that already has the shape of a key. *)

Lemma per_char_steps_fixed s :
  all_chars stable s = true →
  Spec.keep_word_and_space (Spec.ampersand_to_and (Spec.lowercase s)) = s.
Proof.
  induction s as [|c s IH]; [reflexivity|].
  cbn [all_chars]. intros [Hc Hs]%andb_prop.
  unfold stable in Hc.
  apply andb_prop in Hc as [[Hlow%Ascii.eqb_eq Hamp%negb_true_iff]%andb_prop Hkeep].
  cbn [Spec.lowercase Spec.ampersand_to_and]. rewrite Hlow, Hamp.
  cbn [Spec.keep_word_and_space]. rewrite Hkeep, IH by assumption.
  reflexivity.
Qed.

Lemma collapse_head_ok s :
  head_ok s = true → Spec.collapse true s = Spec.collapse false s.
Proof.
  destruct s as [|c s]; [reflexivity|]. cbn [head_ok Spec.collapse].
  intros ->%negb_true_iff. reflexivity.
Qed.

Lemma head_solid_ok s : head_solid s = true → head_ok s = true.
Proof. destruct s; [discriminate|trivial]. Qed.

Lemma collapse_fixed s : spaced s = true → Spec.collapse false s = s.
Proof.
  induction s as [|c s IH]; [reflexivity|].
  cbn [spaced Spec.collapse]. intros [Hc Hs]%andb_prop.
  destruct (Py.isspace c).
  - apply andb_prop in Hc as [->%Ascii.eqb_eq Hhead].
    rewrite collapse_head_ok, IH by auto using head_solid_ok. reflexivity.
  - rewrite IH by assumption. reflexivity.
Qed.

Lemma drop_leading_fixed s : head_ok s = true → Spec.drop_leading s = s.
Proof.
  destruct s as [|c s]; [reflexivity|]. cbn [head_ok Spec.drop_leading].
  intros ->%negb_true_iff. reflexivity.
Qed.

Lemma drop_trailing_fixed s : spaced s = true → Spec.drop_trailing s = s.
Proof.
  induction s as [|c s IH]; [reflexivity|].
  cbn [spaced Spec.drop_trailing Spec.all_space]. intros [Hc Hs]%andb_prop.
  rewrite IH by assumption.
  destruct (Py.isspace c); [|reflexivity].
  apply andb_prop in Hc as [_ Hhead].
  rewrite (head_solid_not_all_space _ Hhead). reflexivity.
Qed.

Lemma steps_fixed t :
  all_chars stable t = true → head_ok t = true → spaced t = true →
  Spec.steps t = t.
Proof.
  intros Hst Hhd Hsp. unfold Spec.steps, Spec.trim.
  rewrite per_char_steps_fixed, collapse_fixed, drop_leading_fixed by assumption.
  apply drop_trailing_fixed, Hsp.
Qed.

(** C7. [normalize] is idempotent: normalising the result of [normalize]
    gives that result again, for every input, string or not. *)
Theorem normalize_idempotent (x : cell) :
  normalize (Str (normalize x)) = normalize x.
Proof.
  destruct x as [|z|s]; [reflexivity..|].
  rewrite !normalize_str.
  apply steps_fixed; [apply steps_stable | apply steps_tidy..].
Qed.

(** ** Labels of a URL *)

Lemma lstrip_all p s : all_chars p s = true → Py.lstrip p s = "".
Proof.
  induction s as [|c s IH]; [reflexivity|].
  cbn [all_chars Py.lstrip]. intros [-> Hs]%andb_prop. auto.
Qed.

(** C8, at a URL without path segments. When [urlparse] succeeds and the
    path is empty or made of slashes only, [split] still returns one
    (empty) part, so the category is the empty string and not [unknown];
    only the metro gets the label [unknown]. *)
Theorem extract_category_and_metro_no_segment
    (urlparse : string → option ParseResult) (url : string)
    (parsed : ParseResult) :
  urlparse url = Some parsed →
  all_chars is_slash (path parsed) = true →
  extract_category_and_metro urlparse url = ("", "unknown").
Proof.
  intros Hparse Hslash. unfold extract_category_and_metro, Py.strip.
  rewrite Hparse, lstrip_all by assumption. reflexivity.
Qed.

Lemma extract_category_and_metro_no_segment_witness :
  extract_category_and_metro urlparse_sample "https://fsr.example/"
    = ("", "unknown").
Proof.
  apply (extract_category_and_metro_no_segment urlparse_sample
           "https://fsr.example/"
           {| scheme := "https"; netloc := "fsr.example"; path := "/" |});
    reflexivity.
Defined.

Example extract_two_segments :
  extract_category_and_metro urlparse_sample
    "https://fsr.example/plumbers/austin" = ("plumbers", "austin").
Proof. reflexivity. Qed.

Example extract_one_segment :
  extract_category_and_metro urlparse_sample
    "https://fsr.example/hvac-repair" = ("hvac repair", "unknown").
Proof. reflexivity. Qed.

Example extract_unparseable :
  extract_category_and_metro urlparse_sample "https://[fsr.example/a/b"
    = ("unknown", "unknown").
Proof. reflexivity. Qed.

(** ** Positions of the scraped records *)

Lemma scrape_blocks_positions url category metro p blocks :
  let results := scrape_blocks url category metro p blocks in
  StronglySorted Z.lt (Item.position <$> results)
  ∧ (∀ k it, results !! k = Some it → p + Z.of_nat k ≤ Item.position it)
  ∧ (∀ it, it ∈ results →
       p ≤ Item.position it
       ∧ ∃ b, blocks !! Z.to_nat (Item.position it - p) = Some b
              ∧ block_name b = Item.name it
              ∧ Item.name it ≠ "" ∧ Item.name it ≠ "N/A").
Proof.
  revert p. induction blocks as [|b rest IH]; intros p; cbn zeta.
  { cbn. split; [constructor|]. split; [intros k it; by rewrite lookup_nil|].
    intros it Hin. by apply elem_of_nil in Hin. }
  cbn [scrape_blocks].
  destruct (IH (p + 1)) as (Hsorted & Hkth & Hblock). cbn zeta in *.
  set (results := scrape_blocks url category metro (p + 1) rest) in *.
  assert (Hshift : ∀ it, it ∈ results →
            p ≤ Item.position it
            ∧ ∃ b', (b :: rest) !! Z.to_nat (Item.position it - p) = Some b'
                    ∧ block_name b' = Item.name it
                    ∧ Item.name it ≠ "" ∧ Item.name it ≠ "N/A").
  { intros it Hin. destruct (Hblock it Hin) as (Hle & b' & Hlook & Hrest).
    split; [lia|]. exists b'. split; [|exact Hrest].
    replace (Z.to_nat (Item.position it - p))
      with (S (Z.to_nat (Item.position it - (p + 1)))) by lia.
    exact Hlook. }
  destruct (negb (String.eqb (block_name b) "")
            && negb (String.eqb (block_name b) "N/A")) eqn:Hkeep.
  - apply andb_prop in Hkeep as
      [Hne%negb_true_iff%String.eqb_neq Hna%negb_true_iff%String.eqb_neq].
    split; [|split].
    + cbn. constructor; [exact Hsorted|].
      apply Forall_forall. intros q Hq.
      apply list_elem_of_fmap in Hq as (it & -> & Hin).
      destruct (Hblock it Hin) as [Hle _]. lia.
    + intros [|k] it; cbn.
      * intros [= <-]. cbn. lia.
      * intros Hlook. specialize (Hkth k it Hlook). lia.
    + intros it [->|Hin]%elem_of_cons; [|by apply Hshift].
      cbn. split; [lia|]. exists b. rewrite Z.sub_diag. by cbn.
  - split; [exact Hsorted|]. split; [|exact Hshift].
    intros k it Hlook. specialize (Hkth k it Hlook). lia.
Qed.

(** C10. The positions in the list returned by [scrape_company_data] are
    strictly increasing and at least 1. A position is the 1-based index of
    the record's block among all blocks of the page (the block at that
    index carries the record's name, which is neither empty nor ["N/A"]),
    so the k-th returned record has position at least k, and more than k
    once a block without a usable name comes before it: a page whose first
    block has no name tag returns its second block at position 2. *)
Theorem scrape_positions_increasing_not_contiguous
    (urlparse : string → option ParseResult) (url : string) :
  (∀ resp,
     let results := scrape_company_data urlparse url resp in
     StronglySorted Z.lt (Item.position <$> results)
     ∧ (∀ it, it ∈ results → 1 ≤ Item.position it)
     ∧ (∀ k it, results !! k = Some it → Z.of_nat (S k) ≤ Item.position it))
  ∧ (∀ status_code company_blocks it,
       it ∈ scrape_company_data urlparse url
              (Reply status_code company_blocks) →
       ∃ b, company_blocks !! Z.to_nat (Item.position it - 1) = Some b
            ∧ block_name b = Item.name it
            ∧ Item.name it ≠ "" ∧ Item.name it ≠ "N/A")
  ∧ Item.position <$>
      scrape_company_data urlparse url
        (Reply 200 [unnamed_block; named_block "Ace Plumbing";
                    named_block "N/A"; named_block "Best Pipes"])
    = [2; 4].
Proof.
  assert (Hempty :
    StronglySorted Z.lt (Item.position <$> [])
    ∧ (∀ it, it ∈ @nil Item.t → 1 ≤ Item.position it)
    ∧ (∀ k it, @nil Item.t !! k = Some it → Z.of_nat (S k) ≤ Item.position it)).
  { split; [constructor|]. split.
    - intros it Hin. by apply elem_of_nil in Hin.
    - intros k it. by rewrite lookup_nil. }
  split; [|split].
  - intros resp. cbn zeta. unfold scrape_company_data.
    destruct resp as [|status_code blocks]; [exact Hempty|].
    destruct (negb (status_code =? 200)); [exact Hempty|].
    destruct (extract_category_and_metro urlparse url) as [category metro].
    destruct (scrape_blocks_positions url category metro 1 blocks)
      as (Hsorted & Hkth & Hblock).
    split; [exact Hsorted|]. split.
    + intros it Hin. by apply Hblock.
    + intros k it Hlook. specialize (Hkth k it Hlook). lia.
  - intros status_code blocks it. unfold scrape_company_data.
    destruct (negb (status_code =? 200)); [intros Hin; by apply elem_of_nil in Hin|].
    destruct (extract_category_and_metro urlparse url) as [category metro].
    intros Hin.
    by apply (scrape_blocks_positions url category metro 1 blocks).
  - unfold scrape_company_data. cbn [Z.eqb negb Pos.eqb].
    destruct (extract_category_and_metro urlparse url) as [category metro].
    reflexivity.
Qed.

Lemma scrape_positions_witness :
  ∃ b, [unnamed_block; named_block " Ace Plumbing "]
         !! Z.to_nat (2 - 1) = Some b
       ∧ block_name b = "Ace Plumbing"
       ∧ "Ace Plumbing" ≠ "" ∧ "Ace Plumbing" ≠ "N/A".
Proof.
  apply (proj1 (proj2 (scrape_positions_increasing_not_contiguous
           urlparse_sample "https://fsr.example/plumbers/austin"))
           200 [unnamed_block; named_block " Ace Plumbing "]
           (Item.mk "https://fsr.example/plumbers/austin" "plumbers"
              "austin" 2 "Ace Plumbing")).
  vm_compute. apply list_elem_of_singleton. reflexivity.
Defined.

(** ** The join and the issue labels *)

Lemma classify_issue (c : row) :
  classify c = set_issue (comparison_issue (classify c)) c.
Proof.
  unfold classify, loc_one.
  destruct (mask_missing_from_input c);
    destruct (mask_position_mismatch _); destruct c; reflexivity.
Qed.

Lemma from_scraped_classify s c :
  from_scraped s (classify c) ↔ from_scraped s c.
Proof. rewrite classify_issue. reflexivity. Qed.

Lemma from_reference_classify r c :
  from_reference r (classify c) ↔ from_reference r c.
Proof. rewrite classify_issue. reflexivity. Qed.

Lemma from_scraped_joined s r : from_scraped s (joined s r).
Proof. repeat split. Qed.

Lemma from_reference_joined s r : from_reference r (joined s r).
Proof. repeat split. Qed.

Lemma from_scraped_joined_inv s s' r : from_scraped s (joined s' r) → s' = s.
Proof.
  destruct s, s'. unfold from_scraped. cbn.
  intros (? & ? & ? & ? & ?). congruence.
Qed.

Lemma from_reference_joined_inv r r' s : from_reference r (joined s r') → r' = r.
Proof.
  destruct r, r'. unfold from_reference. cbn.
  intros (? & ? & ? & ? & ?). congruence.
Qed.

(** The label of a joined row whose reference name is present. *)
Lemma classify_joined_named s r :
  notna (Input.PublishedName r) = true →
  comparison_issue (classify (joined s r))
  = if notna (Num (Item.position s)) && notna (Input.FSR_Position r)
       && cell_ne (Num (Item.position s)) (Input.FSR_Position r)
    then "position mismatch" else "".
Proof.
  intros Hname. unfold classify, loc_one at 2, mask_missing_from_input.
  cbn [PublishedName joined]. unfold notna in Hname.
  apply negb_true_iff in Hname. rewrite Hname.
  unfold loc_one, mask_position_mismatch, notna.
  cbn [comparison_issue position FSR_Position joined isna negb andb].
  change (String.eqb "" "") with true. cbn [andb].
  destruct (negb (isna (Input.FSR_Position r))); cbn [andb];
    [destruct (cell_ne _ _)|]; reflexivity.
Qed.

(** The label of a row without reference name. *)
Lemma classify_nameless c :
  PublishedName c = NA →
  comparison_issue (classify c) = "missing from input".
Proof.
  intros Hname. unfold classify, loc_one at 2, mask_missing_from_input.
  rewrite Hname. cbn [isna].
  unfold loc_one, mask_position_mismatch. reflexivity.
Qed.

Lemma merge_one_inv df s c :
  c ∈ merge_one df s →
  (c = left_only s ∧ matches df s = [])
  ∨ ∃ r, r ∈ df ∧ input_key r = output_key s ∧ c = joined s r.
Proof.
  unfold merge_one. destruct (matches df s) as [|r0 rs] eqn:Hm.
  - intros ->%list_elem_of_singleton. by left.
  - intros (r & -> & Hin)%list_elem_of_fmap. right. exists r.
    rewrite <- Hm in Hin. apply list_elem_of_filter in Hin as [Hkey Hin].
    done.
Qed.

Lemma merge_one_joined df s r :
  r ∈ df → input_key r = output_key s → joined s r ∈ merge_one df s.
Proof.
  intros Hin Hkey. unfold merge_one.
  assert (Hm : r ∈ matches df s) by (by apply list_elem_of_filter).
  destruct (matches df s) as [|r0 rs]; [by apply elem_of_nil in Hm|].
  by apply list_elem_of_fmap_2.
Qed.

Lemma merged_rows_for out_df df :
  merged out_df df = concat (rows_for df <$> out_df).
Proof.
  unfold merged, loc_set, merge_left. rewrite <- list_fmap_compose.
  induction out_df as [|s out IH]; [reflexivity|].
  cbn [flat_map fmap list_fmap concat]. rewrite fmap_app.
  f_equal. exact IH.
Qed.

Lemma elem_of_merged out_df df c :
  c ∈ merged out_df df ↔ ∃ s c0, s ∈ out_df ∧ c0 ∈ merge_one df s ∧ c = classify c0.
Proof.
  rewrite merged_rows_for. induction out_df as [|s out IH]; cbn.
  - split; [intros []%elem_of_nil|]. intros (s & _ & []%elem_of_nil & _).
  - rewrite elem_of_app, IH. unfold rows_for. rewrite list_elem_of_fmap.
    split.
    + intros [(c0 & -> & Hin)|(s' & c0 & Hs' & Hin & ->)].
      * exists s, c0. split; [left|]; done.
      * exists s', c0. split; [by right|]; done.
    + intros (s' & c0 & [->|Hs']%elem_of_cons & Hin & ->).
      * left. by exists c0.
      * right. by exists s', c0.
Qed.

Lemma missing_rows_name out_df df c : c ∈ missing_rows out_df df → name c = NA.
Proof. intros (r & -> & _)%list_elem_of_fmap. reflexivity. Qed.

(** After line 115 every [Metro] cell of the reference table is text. *)
Lemma metro_column_text number_text df r :
  r ∈ metro_column_as_str number_text df → ∃ m, Input.Metro r = Str m.
Proof.
  intros (r0 & -> & _)%list_elem_of_fmap. by eexists.
Qed.

(** What the report holds for a scraped record and a reference row of
    the same key, the reference name being present. *)
Lemma joined_pair_rows number_text df all_data s r :
  s ∈ all_data → r ∈ metro_column_as_str number_text df →
  input_key r = output_key s →
  notna (Input.PublishedName r) = true →
  ∃ final, main number_text df all_data = Report final
    ∧ (∃ c, c ∈ final ∧ from_scraped s c ∧ from_reference r c)
    ∧ (∀ c, c ∈ final → from_scraped s c → from_reference r c →
         c = classify (joined s r)).
Proof.
  intros Hs Hr Hkey Hname.
  destruct all_data as [|s0 rest]; [by apply elem_of_nil in Hs|].
  eexists. split; [reflexivity|]. unfold final_df. cbn zeta.
  set (all_data := s0 :: rest) in *.
  set (df' := metro_column_as_str number_text df) in *.
  split.
  - exists (classify (joined s r)). split; [|split].
    + apply elem_of_app. left. apply elem_of_merged.
      exists s, (joined s r).
      split; [done|]. split; [by apply merge_one_joined|done].
    + apply from_scraped_classify, from_scraped_joined.
    + apply from_reference_classify, from_reference_joined.
  - intros c [Hin|Hin]%elem_of_app Hsc Href.
    + apply elem_of_merged in Hin as (s' & c0 & _ & Hc0 & ->).
      apply (proj1 (from_scraped_classify _ _)) in Hsc.
      apply (proj1 (from_reference_classify _ _)) in Href.
      apply merge_one_inv in Hc0 as [[-> _]|(r' & _ & _ & ->)].
      * destruct Href as (_ & Hnone & _). cbn in Hnone.
        rewrite <- Hnone in Hname. discriminate.
      * apply from_scraped_joined_inv in Hsc as ->.
        apply from_reference_joined_inv in Href as ->. reflexivity.
    + apply missing_rows_name in Hin. destruct Hsc as (_ & _ & _ & _ & Hn).
      congruence.
Qed.

(** C1, with the conditions the code adds. For a scraped record and a
    row of the reference table (as it is after line 115) that share a
    Match Key, the reference [PublishedName] being present and the
    expected position being a number or missing, the report holds a row
    for the pair, and every such row is labelled [position mismatch]
    exactly when both positions are present, as the numbers [p] and [e],
    and [p] differs from [e]; otherwise it has the empty label. *)
Theorem joined_pair_issue number_text df all_data s r :
  s ∈ all_data → r ∈ metro_column_as_str number_text df →
  input_key r = output_key s →
  notna (Input.PublishedName r) = true →
  (∀ t, Input.FSR_Position r ≠ Str t) →
  ∃ final, main number_text df all_data = Report final
    ∧ (∃ c, c ∈ final ∧ from_scraped s c ∧ from_reference r c)
    ∧ (∀ c, c ∈ final → from_scraped s c → from_reference r c →
         (comparison_issue c = "position mismatch"
          ↔ ∃ p e, position c = Num p ∧ FSR_Position c = Num e ∧ p ≠ e)
         ∧ (comparison_issue c = "position mismatch"
            ∨ comparison_issue c = "")).
Proof.
  intros Hs Hr Hkey Hname Hnum.
  destruct (joined_pair_rows number_text df all_data s r Hs Hr Hkey Hname)
    as (final & Hmain & Hex & Hall).
  exists final. split; [exact Hmain|]. split; [exact Hex|].
  intros c Hin Hsc Href. rewrite (Hall c Hin Hsc Href).
  rewrite classify_joined_named by exact Hname.
  rewrite (classify_issue (joined s r)).
  cbn [position FSR_Position set_issue joined notna isna negb andb].
  destruct (Input.FSR_Position r) as [|e|t] eqn:Hpos.
  - cbn. split; [|by right]. split; [discriminate|].
    intros (p & e & _ & [=] & _).
  - cbn [isna negb andb cell_ne].
    destruct (Z.eqb_spec (Item.position s) e) as [Heq|Hne]; cbn [negb].
    + split; [|by right]. split; [discriminate|].
      intros (p & e' & [= <-] & [= <-] & Hpe). done.
    + split; [|by left]. split; [|done].
      intros _. by exists (Item.position s), e.
  - by destruct (Hnum t).
Qed.

Lemma joined_pair_issue_witness :
  ∃ final, main number_text_sample [ace] [ace_listed 2] = Report final
    ∧ (∃ c, c ∈ final ∧ from_scraped (ace_listed 2) c
            ∧ from_reference ace c)
    ∧ (∀ c, c ∈ final → from_scraped (ace_listed 2) c →
         from_reference ace c →
         (comparison_issue c = "position mismatch"
          ↔ ∃ p e, position c = Num p ∧ FSR_Position c = Num e ∧ p ≠ e)
         ∧ (comparison_issue c = "position mismatch"
            ∨ comparison_issue c = "")).
Proof.
  apply (joined_pair_issue number_text_sample [ace] [ace_listed 2]
           (ace_listed 2) ace).
  - apply list_elem_of_singleton. reflexivity.
  - apply list_elem_of_singleton. reflexivity.
  - vm_compute. reflexivity.
  - reflexivity.
  - discriminate.
Defined.

(** C1 as stated fails: a reference row with an empty [PublishedName]
    and a listing named ["***"] in the same category and metro share a
    Match Key and have equal positions, and the joined row is labelled
    [missing from input]. *)
Lemma joined_pair_without_name_counterexample :
  nameless ∈ metro_column_as_str number_text_sample [nameless]
  ∧ input_key nameless = output_key stars
  ∧ ∃ c, main number_text_sample [nameless] [stars] = Report [c]
      ∧ from_scraped stars c ∧ from_reference nameless c
      ∧ position c = Num 1 ∧ FSR_Position c = Num 1
      ∧ comparison_issue c = "missing from input"
      ∧ comparison_issue c ≠ "".
Proof.
  split; [apply list_elem_of_singleton; reflexivity|].
  split; [vm_compute; reflexivity|].
  eexists. split; [vm_compute; reflexivity|].
  repeat split. discriminate.
Qed.

(** C9, as the code behaves. A reference position that is text is a
    present value, and a number never equals a string: with the reference
    name present, every row for a scraped record and such a row of the
    reference table (as it is after line 115) of the same key is labelled
    [position mismatch]. The comparison step is a total function, so the
    run does not fail. *)
Theorem worded_position_mismatch number_text df all_data s r t :
  s ∈ all_data → r ∈ metro_column_as_str number_text df →
  input_key r = output_key s →
  notna (Input.PublishedName r) = true →
  Input.FSR_Position r = Str t →
  ∃ final, main number_text df all_data = Report final
    ∧ (∃ c, c ∈ final ∧ from_scraped s c ∧ from_reference r c)
    ∧ (∀ c, c ∈ final → from_scraped s c → from_reference r c →
         comparison_issue c = "position mismatch").
Proof.
  intros Hs Hr Hkey Hname Hpos.
  destruct (joined_pair_rows number_text df all_data s r Hs Hr Hkey Hname)
    as (final & Hmain & Hex & Hall).
  exists final. split; [exact Hmain|]. split; [exact Hex|].
  intros c Hin Hsc Href. rewrite (Hall c Hin Hsc Href).
  rewrite classify_joined_named by exact Hname.
  rewrite Hpos. reflexivity.
Qed.

Lemma worded_position_mismatch_witness :
  ∃ final, main number_text_sample [ace_worded] [ace_listed 1] = Report final
    ∧ (∃ c, c ∈ final ∧ from_scraped (ace_listed 1) c
            ∧ from_reference ace_worded c)
    ∧ (∀ c, c ∈ final → from_scraped (ace_listed 1) c →
         from_reference ace_worded c →
         comparison_issue c = "position mismatch").
Proof.
  apply (worded_position_mismatch number_text_sample [ace_worded]
           [ace_listed 1] (ace_listed 1) ace_worded "first").
  - apply list_elem_of_singleton. reflexivity.
  - apply list_elem_of_singleton. reflexivity.
  - vm_compute. reflexivity.
  - reflexivity.
  - reflexivity.
Defined.

(** C9 as stated fails: the reference row of Ace Plumbing with the
    position ["first"], scraped at position 1, is reported with the label
    [position mismatch]. *)
Lemma worded_position_counterexample :
  Input.FSR_Position ace_worded = Str "first"
  ∧ ∃ c, main number_text_sample [ace_worded] [ace_listed 1] = Report [c]
      ∧ from_scraped (ace_listed 1) c
      ∧ from_reference ace_worded c
      ∧ comparison_issue c = "position mismatch".
Proof.
  split; [reflexivity|].
  eexists. split; [vm_compute; reflexivity|]. repeat split.
Qed.

(** ** An empty scrape *)

(** C4, as the code behaves. When no record was scraped the comparison
    step is skipped: [main] shows the warning and builds no report,
    whatever the reference table holds. *)
Theorem main_empty_scrape (number_text : list cell → Z → string)
    (df : list Input.t) :
  main number_text df [] = Warning "No company data was found.".
Proof. reflexivity. Qed.

(** C4 as stated fails: with the reference row of Ace Plumbing and no
    scraped record there is no report, hence no row labelled
    [missing from website]. *)
Lemma main_empty_scrape_counterexample :
  ¬ ∃ final, main number_text_sample [ace] [] = Report final
      ∧ Forall (λ c, comparison_issue c = "missing from website") final.
Proof. intros (final & Hmain & _). discriminate Hmain. Qed.

(** ** Rows synthesised for reference keys that were not scraped *)

Lemma filter_ext_elem {A} (P Q : A → Prop)
    `{!∀ x, Decision (P x)} `{!∀ x, Decision (Q x)} (l : list A) :
  (∀ x, x ∈ l → P x ↔ Q x) → filter P l = filter Q l.
Proof.
  induction l as [|x l IH]; intros Hext; [reflexivity|].
  rewrite !filter_cons.
  rewrite IH by (intros y Hy; apply Hext; by right).
  assert (Hx : P x ↔ Q x) by (apply Hext; by left).
  destruct (decide (P x)) as [HP|HP], (decide (Q x)) as [HQ|HQ];
    try reflexivity; tauto.
Qed.

Lemma missing_keys_unmatched out_df df r :
  r ∈ df → input_key r ∈ missing_keys out_df df ↔ unmatched out_df r.
Proof.
  intros Hr. unfold missing_keys, input_keys, scraped_keys, unmatched.
  rewrite elem_of_difference, !elem_of_list_to_set, Forall_forall.
  split.
  - intros [_ Hnot] s Hs Hkey. apply Hnot. rewrite <- Hkey.
    by apply list_elem_of_fmap_2.
  - intros Hall. split; [by apply list_elem_of_fmap_2|].
    intros (s & Hkey & Hs)%list_elem_of_fmap. by apply (Hall s Hs).
Qed.

Lemma missing_rows_unmatched out_df df :
  missing_rows out_df df = missing_row <$> filter (unmatched out_df) df.
Proof.
  unfold missing_rows. f_equal. apply filter_ext_elem.
  intros r Hr. by apply missing_keys_unmatched.
Qed.

Lemma merged_not_synthesised out_df df c :
  c ∈ merged out_df df →
  comparison_issue c ≠ "missing from website" ∧ name c ≠ NA.
Proof.
  intros (s & c0 & _ & Hc0 & ->)%elem_of_merged. split.
  - unfold classify, loc_one.
    assert (H0 : comparison_issue c0 = "").
    { apply merge_one_inv in Hc0 as [[-> _]|(r & _ & _ & ->)]; reflexivity. }
    destruct (mask_missing_from_input c0);
      destruct (mask_position_mismatch _); cbn; rewrite ?H0; discriminate.
  - rewrite classify_issue. cbn.
    apply merge_one_inv in Hc0 as [[-> _]|(r & _ & _ & ->)]; discriminate.
Qed.

(** C2, as the code behaves. When at least one record was scraped, the
    report is the joined rows followed by the synthesised rows: one, in
    order, for each reference row whose Match Key no scraped record has.
    Such a row carries the reference columns and the label
    [missing from website]; its scraped [name], [url] and [position] are
    missing, while its scraped [category] and [metro] are copied from the
    reference [Category] and [Metro]. No joined row bears that label. *)
Theorem missing_from_website_rows number_text df all_data :
  all_data ≠ [] →
  ∃ joined_rows synthesised,
    main number_text df all_data = Report (joined_rows ++ synthesised)
    ∧ Forall (λ c, comparison_issue c ≠ "missing from website"
                   ∧ name c ≠ NA) joined_rows
    ∧ Forall2
        (λ r c,
           from_reference r c
           ∧ comparison_issue c = "missing from website"
           ∧ name c = NA ∧ url c = NA ∧ position c = NA
           ∧ category c = Input.Category r ∧ metro c = Input.Metro r)
        (filter (unmatched all_data) (metro_column_as_str number_text df))
        synthesised.
Proof.
  intros Hne. destruct all_data as [|s0 rest]; [done|].
  set (all_data := s0 :: rest).
  set (df' := metro_column_as_str number_text df).
  exists (merged all_data df'), (missing_rows all_data df').
  split; [reflexivity|]. split.
  - apply Forall_forall. intros c Hc. by apply merged_not_synthesised in Hc.
  - rewrite missing_rows_unmatched. apply Forall2_fmap_r, Forall_Forall2_diag.
    apply Forall_forall. intros r _. repeat split.
Qed.

Lemma missing_from_website_rows_witness :
  ∃ joined_rows synthesised,
    main number_text_sample [ace] [bob]
    = Report (joined_rows ++ synthesised)
    ∧ Forall (λ c, comparison_issue c ≠ "missing from website"
                   ∧ name c ≠ NA) joined_rows
    ∧ Forall2
        (λ r c,
           from_reference r c
           ∧ comparison_issue c = "missing from website"
           ∧ name c = NA ∧ url c = NA ∧ position c = NA
           ∧ category c = Input.Category r ∧ metro c = Input.Metro r)
        (filter (unmatched [bob])
           (metro_column_as_str number_text_sample [ace])) synthesised.
Proof.
  apply (missing_from_website_rows number_text_sample [ace] [bob]).
  discriminate.
Defined.

(** C2 as stated fails: for the reference row of Ace Plumbing and a
    scrape that found only Bob's Tires, the synthesised row has the
    category ["plumbers"] and the metro ["austin"], not missing values. *)
Lemma missing_from_website_counterexample :
  unmatched [bob] ace
  ∧ ∃ c0 c, main number_text_sample [ace] [bob] = Report [c0; c]
      ∧ from_reference ace c
      ∧ comparison_issue c = "missing from website"
      ∧ category c = Str "plumbers" ∧ metro c = Str "austin"
      ∧ category c ≠ NA ∧ metro c ≠ NA.
Proof.
  split.
  - apply Forall_cons. split; [|constructor]. vm_compute. discriminate.
  - do 2 eexists. split; [vm_compute; reflexivity|].
    repeat split; discriminate.
Qed.

(** ** Rows of the scraped records *)

Lemma matches_nil df s :
  matches df s = [] ↔ ∀ r, r ∈ df → input_key r ≠ output_key s.
Proof.
  unfold matches. split.
  - intros Hnil r Hr Hkey.
    by apply (filter_nil_not_elem_of _ _ r Hnil Hkey).
  - intros Hall. induction df as [|r df IH]; [reflexivity|].
    rewrite filter_cons_False by (apply Hall; by left).
    apply IH. intros r' Hr'. apply Hall. by right.
Qed.

Lemma rows_for_shape df s :
  rows_for df s ≠ []
  ∧ Forall (from_scraped s) (rows_for df s)
  ∧ ((∀ r, r ∈ df → input_key r ≠ output_key s) →
     ∃ c, rows_for df s = [c]
          ∧ comparison_issue c = "missing from input"
          ∧ no_reference c).
Proof.
  split; [|split].
  - unfold rows_for, merge_one.
    destruct (matches df s) as [|r rs]; discriminate.
  - apply Forall_forall. intros c (c0 & -> & Hc0)%list_elem_of_fmap.
    apply from_scraped_classify.
    apply merge_one_inv in Hc0 as [[-> _]|(r & _ & _ & ->)];
      apply from_scraped_joined.
  - intros Hnone%matches_nil. unfold rows_for, merge_one. rewrite Hnone.
    exists (classify (left_only s)). split; [reflexivity|]. split.
    + by apply classify_nameless.
    + rewrite classify_issue. repeat split.
Qed.

(** C3. When records were scraped, the report is one block of rows per
    scraped record, in order, followed by the synthesised rows, which
    carry no scraped name. The block of a record is never empty and all
    its rows carry the record's scraped columns, so every scraped record
    appears at least once; when no reference row has the record's Match
    Key the block is exactly one row, labelled [missing from input], with
    every reference column missing. *)
Theorem scraped_records_reported number_text df all_data :
  all_data ≠ [] →
  ∃ blocks synthesised,
    main number_text df all_data = Report (concat blocks ++ synthesised)
    ∧ Forall (λ c, name c = NA) synthesised
    ∧ Forall2
        (λ s b,
           b ≠ []
           ∧ Forall (from_scraped s) b
           ∧ ((∀ r, r ∈ metro_column_as_str number_text df →
                 input_key r ≠ output_key s) →
              ∃ c, b = [c]
                   ∧ comparison_issue c = "missing from input"
                   ∧ no_reference c))
        all_data blocks.
Proof.
  intros Hne. destruct all_data as [|s0 rest]; [done|].
  set (all_data := s0 :: rest).
  set (df' := metro_column_as_str number_text df).
  exists (rows_for df' <$> all_data), (missing_rows all_data df').
  split; [|split].
  - cbn [main all_data]. unfold final_df. cbn zeta.
    by rewrite merged_rows_for.
  - apply Forall_forall. intros c Hc. by apply missing_rows_name in Hc.
  - apply Forall2_fmap_r, Forall_Forall2_diag, Forall_forall.
    intros s _. apply rows_for_shape.
Qed.

Lemma scraped_records_reported_witness :
  ∃ blocks synthesised,
    main number_text_sample [ace] [bob]
    = Report (concat blocks ++ synthesised)
    ∧ Forall (λ c, name c = NA) synthesised
    ∧ Forall2
        (λ s b,
           b ≠ []
           ∧ Forall (from_scraped s) b
           ∧ ((∀ r, r ∈ metro_column_as_str number_text_sample [ace] →
                 input_key r ≠ output_key s) →
              ∃ c, b = [c]
                   ∧ comparison_issue c = "missing from input"
                   ∧ no_reference c))
        [bob] blocks.
Proof.
  apply (scraped_records_reported number_text_sample [ace] [bob]).
  discriminate.
Defined.

(** A numeric [Metro] column with an empty cell prints its codes as
    floats: the listing scraped under ["75001"] does not meet the key of
    its reference row, which is built from ["75001.0"], and both reference
    rows are synthesised; without the empty cell the two sides join. *)
Example coded_metro_with_empty_cell :
  match main number_text_sample [ace_coded; best_uncoded] [ace_listed_coded]
  with
  | Report final => (λ c, (comparison_issue c, match_key c)) <$> final
  | Warning _ => []
  end
  = [("missing from input", "ace plumbing|plumbers|75001");
     ("missing from website", "ace plumbing|plumbers|750010");
     ("missing from website", "best pipes|plumbers|")].
Proof. vm_compute. reflexivity. Qed.

Example coded_metro_without_empty_cell :
  match main number_text_sample [ace_coded] [ace_listed_coded] with
  | Report final => (λ c, (comparison_issue c, match_key c)) <$> final
  | Warning _ => []
  end
  = [("", "ace plumbing|plumbers|75001")].
Proof. vm_compute. reflexivity. Qed.

(** ** Number of joined rows *)

Lemma matches_at_most_one df s :
  NoDup (input_key <$> df) → (length (matches df s) ≤ 1)%nat.
Proof.
  unfold matches. induction df as [|r df IH]; [cbn; lia|].
  rewrite fmap_cons, NoDup_cons. intros [Hfresh Hnd].
  rewrite filter_cons. destruct (decide (input_key r = output_key s)) as [Hk|Hk].
  - assert (Hnil : filter (λ r0, input_key r0 = output_key s) df = []).
    { apply matches_nil. intros r' Hr' Hk'. apply Hfresh.
      rewrite Hk, <- Hk'. by apply list_elem_of_fmap_2. }
    rewrite Hnil. cbn. lia.
  - by apply IH.
Qed.

Lemma length_merge_one df s :
  length (merge_one df s) = Nat.max 1 (length (matches df s)).
Proof.
  unfold merge_one. destruct (matches df s) as [|r rs] eqn:Hm; [reflexivity|].
  rewrite length_fmap. cbn. reflexivity.
Qed.

Lemma length_merged out_df df :
  length (merged out_df df) = length (merge_left out_df df).
Proof. unfold merged, loc_set. by rewrite !length_fmap. Qed.

Lemma length_merge_left_ge out_df df :
  (length out_df ≤ length (merge_left out_df df))%nat.
Proof.
  unfold merge_left. induction out_df as [|s out IH]; [reflexivity|].
  cbn [flat_map]. rewrite length_app, length_merge_one. cbn [length]. lia.
Qed.

Lemma length_merge_left_unique out_df df :
  NoDup (input_key <$> df) →
  length (merge_left out_df df) = length out_df.
Proof.
  intros Hnd. unfold merge_left.
  induction out_df as [|s out IH]; [reflexivity|].
  cbn [flat_map]. rewrite length_app, length_merge_one, IH.
  pose proof (matches_at_most_one df s Hnd). cbn [length]. lia.
Qed.

(** C5. The join step gives at least one row per scraped record; when no
    Match Key occurs twice among the reference rows it gives exactly one
    row per scraped record, so the number of joined rows can exceed the
    number of scraped records only if some reference key is repeated. *)
Theorem join_row_count number_text df all_data :
  let df' := metro_column_as_str number_text df in
  (length all_data ≤ length (merged all_data df'))%nat
  ∧ (NoDup (input_key <$> df') →
     length (merged all_data df') = length all_data)
  ∧ ((length all_data < length (merged all_data df'))%nat →
     ¬ NoDup (input_key <$> df')).
Proof.
  cbn zeta. rewrite length_merged. split; [|split].
  - apply length_merge_left_ge.
  - apply length_merge_left_unique.
  - intros Hlt Hnd. rewrite length_merge_left_unique in Hlt by exact Hnd. lia.
Qed.

Lemma join_row_count_witness :
  length (merged [ace_listed 2; bob]
            (metro_column_as_str number_text_sample [ace]))
  = length [ace_listed 2; bob]
  ∧ ¬ NoDup (input_key
               <$> metro_column_as_str number_text_sample [ace; ace_worded]).
Proof.
  split.
  - apply (join_row_count number_text_sample [ace] [ace_listed 2; bob]).
    apply NoDup_singleton.
  - apply (join_row_count number_text_sample [ace; ace_worded]
             [ace_listed 2]).
    vm_compute. lia.
Defined.

(** * Further properties *)

(** ** The shape of a key and of the Match Key *)

Lemma all_chars_impl (p q : ascii → bool) s :
  (∀ c, p c = true → q c = true) →
  all_chars p s = true → all_chars q s = true.
Proof.
  intros Hpq. induction s as [|c s IH]; [reflexivity|].
  cbn [all_chars]. intros [Hc Hs]%andb_prop.
  rewrite (Hpq c Hc), IH by assumption. reflexivity.
Qed.

Lemma stable_word_or_space c :
  stable c = true →
  (Py.isword c = true ∧ Ascii.eqb (Py.lower_char c) c = true)
  ∨ Py.isspace c = true.
Proof.
  unfold stable. intros [[Hlow _]%andb_prop Hkeep]%andb_prop.
  apply orb_prop in Hkeep as [Hw|Hs]; auto.
Qed.

Lemma word_not_space c : Py.isword c = true → Py.isspace c = false.
Proof. each_char c; congruence. Qed.

Lemma key_chars_of_stable s :
  all_chars stable s = true → spaced s = true →
  all_chars key_char s = true.
Proof.
  induction s as [|c s IH]; [reflexivity|].
  cbn [all_chars spaced]. intros [Hc Hs]%andb_prop [Hsp Hrest]%andb_prop.
  rewrite IH, andb_true_r by assumption. unfold key_char.
  apply stable_word_or_space in Hc as [[-> ->]|Hspace]; [reflexivity|].
  rewrite Hspace in Hsp. apply andb_prop in Hsp as [-> _].
  apply orb_true_r.
Qed.

Lemma key_char_not_bar c : key_char c = true → not_bar c = true.
Proof. each_char c; congruence. Qed.

Lemma key_char_plain c :
  key_char c = true →
  Ascii.eqb c "&" = false ∧ Ascii.eqb c "-" = false
  ∧ Ascii.eqb c "/" = false ∧ Ascii.eqb (Py.lower_char c) c = true.
Proof. each_char c; intros; repeat split; congruence. Qed.

Lemma normalize_key_chars x : all_chars key_char (normalize x) = true.
Proof.
  destruct x as [|z|s]; [reflexivity..|]. rewrite normalize_str.
  apply key_chars_of_stable; [apply steps_stable | apply steps_tidy].
Qed.

Lemma normalize_not_bar x : all_chars not_bar (normalize x) = true.
Proof.
  apply (all_chars_impl key_char); [apply key_char_not_bar|].
  apply normalize_key_chars.
Qed.

(** X1. A key returned by [normalize] holds only word characters that
    are already lowercase and single spaces: it does not start with
    whitespace, every whitespace character in it is a space followed by a
    character that is not whitespace (so none is doubled and none ends the
    key), and it holds neither [&], [-], [/] nor the separator [|]. *)
Theorem normalize_key_shape (x : cell) :
  all_chars key_char (normalize x) = true
  ∧ head_ok (normalize x) = true
  ∧ spaced (normalize x) = true
  ∧ all_chars (λ c, negb (Ascii.eqb c "&") && negb (Ascii.eqb c "-")
                    && negb (Ascii.eqb c "/") && negb (Ascii.eqb c "|"))
      (normalize x) = true.
Proof.
  split; [apply normalize_key_chars|].
  split; [|split].
  - destruct x as [|z|s]; [reflexivity..|]. rewrite normalize_str.
    apply steps_tidy.
  - destruct x as [|z|s]; [reflexivity..|]. rewrite normalize_str.
    apply steps_tidy.
  - apply (all_chars_impl key_char); [|apply normalize_key_chars].
    intros c Hc. pose proof (key_char_not_bar c Hc) as Hbar.
    apply key_char_plain in Hc as (-> & -> & -> & _).
    unfold not_bar in Hbar. rewrite Hbar. reflexivity.
Qed.

Lemma app_cons c a b : String c a +:+ b = String c (a +:+ b).
Proof. reflexivity. Qed.

Lemma app_empty b : "" +:+ b = b.
Proof. reflexivity. Qed.

(** A separator that neither prefix holds splits a string in one way. *)
Lemma bar_split a a' x x' :
  all_chars not_bar a = true → all_chars not_bar a' = true →
  a +:+ "|" +:+ x = a' +:+ "|" +:+ x' → a = a' ∧ x = x'.
Proof.
  revert a'. induction a as [|c a IH]; intros [|c' a'];
    cbn [all_chars]; rewrite ?app_cons, ?app_empty.
  - intros _ _ [= ->]. done.
  - intros _ [Hc' _]%andb_prop [= <- _]. discriminate Hc'.
  - intros [Hc _]%andb_prop _ [= -> _]. discriminate Hc.
  - intros [_ Ha]%andb_prop [_ Ha']%andb_prop [= -> Heq].
    destruct (IH a' Ha Ha' Heq) as [-> ->]. done.
Qed.

Lemma key_components a b c a' b' c' :
  normalize a +:+ "|" +:+ normalize b +:+ "|" +:+ normalize c
  = normalize a' +:+ "|" +:+ normalize b' +:+ "|" +:+ normalize c'
  ↔ normalize a = normalize a' ∧ normalize b = normalize b'
    ∧ normalize c = normalize c'.
Proof.
  split.
  - intros [Ha Hrest]%bar_split; [|apply normalize_not_bar..].
    apply bar_split in Hrest as [Hb Hc]; [|apply normalize_not_bar..].
    done.
  - intros (-> & -> & ->). reflexivity.
Qed.

(** X2. A reference row and a scraped record have the same Match Key
    exactly when their normalised names, their normalised categories and
    their normalised metros are equal: the separator cannot be confused
    with the content of a component. *)
Theorem match_key_components (r : Input.t) (s : Item.t) :
  input_key r = output_key s
  ↔ normalize (Input.PublishedName r) = normalize (Str (Item.name s))
    ∧ normalize (Input.Category r) = normalize (Str (Item.category s))
    ∧ normalize (Input.Metro r) = normalize (Str (Item.metro s)).
Proof. apply key_components. Qed.

Lemma match_key_components_witness :
  normalize (Input.PublishedName ace) = normalize (Str (Item.name (ace_listed 2)))
  ∧ normalize (Input.Category ace) = normalize (Str (Item.category (ace_listed 2)))
  ∧ normalize (Input.Metro ace) = normalize (Str (Item.metro (ace_listed 2))).
Proof.
  apply (proj1 (match_key_components ace (ace_listed 2))).
  vm_compute. reflexivity.
Defined.

(** ** The rows of the report *)

Lemma main_report number_text df all_data final :
  main number_text df all_data = Report final →
  all_data ≠ []
  ∧ final = merged all_data (metro_column_as_str number_text df)
            ++ missing_rows all_data (metro_column_as_str number_text df).
Proof.
  destruct all_data as [|s0 rest]; [discriminate|].
  intros [= <-]. split; [discriminate|reflexivity].
Qed.





(** X4. In a report, a row that has both a scraped name and a reference
    name pairs two listings that agree after normalisation: the
    normalised scraped name, category and metro equal the normalised
    reference name, category and metro, and the row's [match_key] is the
    key of both sides. *)
Theorem joined_row_sides_agree number_text df all_data final c :
  main number_text df all_data = Report final → c ∈ final →
  notna (name c) = true → notna (PublishedName c) = true →
  normalize (name c) = normalize (PublishedName c)
  ∧ normalize (category c) = normalize (Category c)
  ∧ normalize (metro c) = normalize (Metro c)
  ∧ match_key c
    = normalize (PublishedName c) +:+ "|" +:+ normalize (Category c)
      +:+ "|" +:+ normalize (Metro c).
Proof.
  intros [_ ->]%main_report [Hin|Hin]%elem_of_app Hname Href.
  - apply elem_of_merged in Hin as (s & c0 & _ & Hc0 & ->).
    rewrite classify_issue in *.
    apply merge_one_inv in Hc0 as [[-> _]|(r & _ & Hkey & ->)];
      [discriminate Href|].
    cbn [name category metro PublishedName Category Metro match_key joined
         set_issue].
    pose proof Hkey as Hk. unfold input_key, output_key in Hk.
    destruct (proj1 (key_components _ _ _ _ _ _) Hk) as (H1 & H2 & H3).
    repeat split; [by symmetry..|]. symmetry. exact Hkey.
  - apply list_elem_of_fmap in Hin as (r & -> & _). discriminate Hname.
Qed.

Lemma joined_row_sides_agree_witness :
  let c := classify (joined (ace_listed 2) ace) in
  normalize (name c) = normalize (PublishedName c)
  ∧ normalize (category c) = normalize (Category c)
  ∧ normalize (metro c) = normalize (Metro c)
  ∧ match_key c
    = normalize (PublishedName c) +:+ "|" +:+ normalize (Category c)
      +:+ "|" +:+ normalize (Metro c).
Proof.
  apply (joined_row_sides_agree number_text_sample [ace]
           [ace_listed 2; bob] _ _ eq_refl).
  - vm_compute. apply list_elem_of_here.
  - reflexivity.
  - reflexivity.
Defined.

Lemma from_reference_missing_row_inv r r' :
  from_reference r (missing_row r') → r' = r.
Proof.
  destruct r, r'. unfold from_reference. cbn.
  intros (? & ? & ? & ? & ?). congruence.
Qed.

Lemma from_reference_left_only r s :
  (∃ m, Input.Metro r = Str m) → ¬ from_reference r (left_only s).
Proof.
  intros [m Hm] (_ & _ & _ & Hmetro & _). cbn in Hmetro. congruence.
Qed.

(** X5. Every row of the reference table, as it is after line 115, is
    accounted for in a report, in one of two exclusive ways. If no
    scraped record has its Match Key, the report holds the row
    synthesised for it, labelled [missing from website], and every row of
    the report with these reference columns is that row. Otherwise the
    report holds a row joining it to a scraped record of the same key, and
    no row with these reference columns lacks a scraped name. *)
Theorem reference_rows_accounted number_text df all_data final r :
  main number_text df all_data = Report final →
  r ∈ metro_column_as_str number_text df →
  (unmatched all_data r →
     missing_row r ∈ final
     ∧ comparison_issue (missing_row r) = "missing from website"
     ∧ ∀ c, c ∈ final → from_reference r c → c = missing_row r)
  ∧ (¬ unmatched all_data r →
     (∃ s c, s ∈ all_data ∧ output_key s = input_key r ∧ c ∈ final
             ∧ from_scraped s c ∧ from_reference r c)
     ∧ ∀ c, c ∈ final → from_reference r c → notna (name c) = true).
Proof.
  intros [_ ->]%main_report Hr.
  pose proof (metro_column_text _ _ _ Hr) as Htext.
  set (df' := metro_column_as_str number_text df) in *.
  rewrite missing_rows_unmatched. split.
  - intros Hun. split; [|split; [reflexivity|]].
    + apply elem_of_app. right. apply list_elem_of_fmap_2.
      by apply list_elem_of_filter.
    + intros c [Hin|Hin]%elem_of_app Href.
      * apply elem_of_merged in Hin as (s & c0 & Hs & Hc0 & ->).
        apply (proj1 (from_reference_classify _ _)) in Href.
        apply merge_one_inv in Hc0 as [[-> _]|(r0 & _ & Hkey & ->)].
        -- by apply from_reference_left_only in Href.
        -- apply from_reference_joined_inv in Href as ->.
           unfold unmatched in Hun. rewrite Forall_forall in Hun.
           by destruct (Hun s Hs).
      * apply list_elem_of_fmap in Hin as (r0 & -> & _).
        by apply from_reference_missing_row_inv in Href as ->.
  - intros Hmatched. split.
    + apply not_Forall_Exists in Hmatched; [|apply _].
      apply Exists_exists in Hmatched as (s & Hs & Hkey).
      apply dec_stable in Hkey.
      exists s, (classify (joined s r)). split; [exact Hs|].
      split; [exact Hkey|]. split; [|split].
      * apply elem_of_app. left. apply elem_of_merged.
        exists s, (joined s r). split; [exact Hs|].
        split; [by apply merge_one_joined|reflexivity].
      * apply from_scraped_classify, from_scraped_joined.
      * apply from_reference_classify, from_reference_joined.
    + intros c [Hin|Hin]%elem_of_app Href.
      * by apply merged_not_synthesised in Hin as [_ Hn]; destruct (name c).
      * apply list_elem_of_fmap in Hin as (r0 & -> & Hr0).
        apply from_reference_missing_row_inv in Href as ->.
        apply list_elem_of_filter in Hr0 as [Hun _]. by destruct Hmatched.
Qed.

Lemma reference_rows_accounted_witness :
  missing_row ace ∈ final_df number_text_sample [bob] [ace]
  ∧ ∃ s c, s ∈ [ace_listed 2] ∧ output_key s = input_key ace
           ∧ c ∈ final_df number_text_sample [ace_listed 2] [ace]
           ∧ from_scraped s c ∧ from_reference ace c.
Proof.
  split.
  - apply (reference_rows_accounted number_text_sample [ace] [bob] _ ace
             eq_refl).
    + apply list_elem_of_singleton. reflexivity.
    + apply Forall_cons. split; [|constructor]. vm_compute. discriminate.
  - apply (reference_rows_accounted number_text_sample [ace] [ace_listed 2]
             _ ace eq_refl).
    + apply list_elem_of_singleton. reflexivity.
    + intros Hun. apply Forall_inv in Hun. apply Hun. vm_compute. reflexivity.
Defined.

Lemma length_merge_left out_df df :
  length (merge_left out_df df)
  = sum_list ((λ s, Nat.max 1 (length (matches df s))) <$> out_df).
Proof.
  unfold merge_left. induction out_df as [|s out IH]; [reflexivity|].
  cbn [flat_map]. rewrite length_app, length_merge_one, IH. reflexivity.
Qed.

(** X6. The number of rows of a report: for each scraped record the number
    of reference rows with its Match Key, counted as one when there is
    none, plus the number of reference rows whose key no scraped record
    has. *)
Theorem report_row_count number_text df all_data final :
  main number_text df all_data = Report final →
  let df' := metro_column_as_str number_text df in
  length final
  = (sum_list ((λ s, Nat.max 1 (length (matches df' s))) <$> all_data)
     + length (filter (unmatched all_data) df'))%nat.
Proof.
  intros [_ ->]%main_report df'.
  rewrite length_app, length_merged, length_merge_left.
  rewrite missing_rows_unmatched, length_fmap. reflexivity.
Qed.

Lemma report_row_count_witness :
  length (final_df number_text_sample [ace_listed 2; bob]
            [ace; ace_worded; nameless]) = 4%nat.
Proof.
  rewrite (report_row_count number_text_sample [ace; ace_worded; nameless]
             [ace_listed 2; bob] _ eq_refl).
  vm_compute. reflexivity.
Defined.

(** ** The records of a page *)

Lemma all_space_drop_trailing t :
  Spec.all_space (Spec.drop_trailing t) = Spec.all_space t.
Proof.
  induction t as [|c t IH]; [reflexivity|]. cbn [Spec.drop_trailing].
  destruct (Spec.all_space (String c t)) eqn:Hall; [reflexivity|].
  cbn [Spec.all_space] in *. rewrite IH. exact Hall.
Qed.

Lemma drop_trailing_idem t :
  Spec.drop_trailing (Spec.drop_trailing t) = Spec.drop_trailing t.
Proof.
  induction t as [|c t IH]; [reflexivity|]. cbn [Spec.drop_trailing].
  destruct (Spec.all_space (String c t)) eqn:Hall; [reflexivity|].
  cbn [Spec.drop_trailing Spec.all_space] in *.
  rewrite all_space_drop_trailing, Hall, IH. reflexivity.
Qed.

Lemma strip_idem v :
  Py.strip Py.isspace (Py.strip Py.isspace v) = Py.strip Py.isspace v.
Proof.
  rewrite !strip_trim. unfold Spec.trim.
  rewrite (drop_leading_fixed (Spec.drop_trailing _))
    by apply drop_trailing_head_ok, drop_leading_head_ok.
  apply drop_trailing_idem.
Qed.

Lemma block_name_stripped b :
  Py.strip Py.isspace (block_name b) = block_name b.
Proof.
  unfold block_name. destruct (find_name_meta b) as [[[v|]]|];
    [apply strip_idem|reflexivity..].
Qed.

Lemma scrape_blocks_fields url category metro p blocks :
  Forall (λ it, Item.url it = url ∧ Item.category it = category
                ∧ Item.metro it = metro
                ∧ Py.strip Py.isspace (Item.name it) = Item.name it)
    (scrape_blocks url category metro p blocks).
Proof.
  revert p. induction blocks as [|b rest IH]; intros p; [constructor|].
  cbn [scrape_blocks].
  destruct (negb (String.eqb (block_name b) "")
            && negb (String.eqb (block_name b) "N/A")); [|apply IH].
  constructor; [|apply IH]. cbn. repeat split. apply block_name_stripped.
Qed.

Lemma scrape_blocks_names url category metro p blocks :
  Item.name <$> scrape_blocks url category metro p blocks
  = filter usable_name (block_name <$> blocks).
Proof.
  revert p. induction blocks as [|b rest IH]; intros p; [reflexivity|].
  cbn [scrape_blocks fmap list_fmap]. rewrite filter_cons.
  destruct (decide (usable_name (block_name b))) as [[Hne Hna]|Hno].
  - apply String.eqb_neq in Hne, Hna. rewrite Hne, Hna. cbn.
    f_equal. apply IH.
  - destruct (String.eqb_spec (block_name b) "") as [He|Hne];
      [apply IH|].
    destruct (String.eqb_spec (block_name b) "N/A") as [Ha|Hna];
      [apply IH|].
    destruct Hno. by split.
Qed.

(** X7. What a page gives. A request that raised, or a status other than
    200, gives no record. With status 200 the names of the records are,
    in page order, the names of the blocks that are neither empty nor
    ["N/A"] (a block without name tag or without [content] counts as
    ["N/A"]), so there are at most as many records as blocks. *)
Theorem scrape_names_in_page_order
    (urlparse : string → option ParseResult) (url : string) :
  scrape_company_data urlparse url Raised = []
  ∧ (∀ status_code blocks,
       status_code ≠ 200 →
       scrape_company_data urlparse url (Reply status_code blocks) = [])
  ∧ (∀ blocks,
       Item.name <$> scrape_company_data urlparse url (Reply 200 blocks)
       = filter usable_name (block_name <$> blocks))
  ∧ (∀ resp blocks,
       resp = Reply 200 blocks →
       (length (scrape_company_data urlparse url resp) ≤ length blocks)%nat).
Proof.
  split; [reflexivity|]. split; [|split].
  - intros code blocks Hcode. unfold scrape_company_data.
    apply Z.eqb_neq in Hcode. rewrite Hcode. reflexivity.
  - intros blocks. unfold scrape_company_data. cbn [Z.eqb Pos.eqb negb].
    destruct (extract_category_and_metro urlparse url) as [category metro].
    apply scrape_blocks_names.
  - intros resp blocks ->. unfold scrape_company_data. cbn [Z.eqb Pos.eqb negb].
    destruct (extract_category_and_metro urlparse url) as [category metro].
    rewrite <- (length_fmap Item.name), scrape_blocks_names.
    etransitivity; [apply length_filter|]. by rewrite length_fmap.
Qed.

Lemma scrape_names_in_page_order_witness :
  scrape_company_data urlparse_sample "https://fsr.example/plumbers/austin"
    (Reply 503 [named_block "Ace Plumbing"]) = [].
Proof.
  apply (proj1 (proj2 (scrape_names_in_page_order urlparse_sample
           "https://fsr.example/plumbers/austin"))).
  lia.
Defined.

(** X8. Every record returned for a page carries the URL that was
    scraped and the two labels that [extract_category_and_metro] gives
    for that URL (whatever the page says), and a name that is not empty,
    is not ["N/A"] and has no whitespace left at either end. *)
Theorem scrape_record_fields
    (urlparse : string → option ParseResult) (url : string)
    (resp : response) (it : Item.t) :
  it ∈ scrape_company_data urlparse url resp →
  Item.url it = url
  ∧ (Item.category it, Item.metro it) = extract_category_and_metro urlparse url
  ∧ usable_name (Item.name it)
  ∧ Py.strip Py.isspace (Item.name it) = Item.name it.
Proof.
  unfold scrape_company_data. destruct resp as [|code blocks];
    [intros []%elem_of_nil|].
  destruct (negb (code =? 200)); [intros []%elem_of_nil|].
  destruct (extract_category_and_metro urlparse url) as [category metro].
  intros Hin.
  pose proof (scrape_blocks_fields url category metro 1 blocks) as Hf.
  rewrite Forall_forall in Hf. destruct (Hf it Hin) as (Hu & Hc & Hm & Hstrip).
  split; [exact Hu|]. split; [by rewrite Hc, Hm|]. split; [|exact Hstrip].
  assert (Hn : Item.name it ∈
            Item.name <$> scrape_blocks url category metro 1 blocks)
    by (by apply list_elem_of_fmap_2).
  rewrite scrape_blocks_names in Hn. by apply list_elem_of_filter in Hn as [? _].
Qed.

Lemma scrape_record_fields_witness :
  Item.url (ace_listed 1) = "https://fsr.example/plumbers/austin"
  ∧ (Item.category (ace_listed 1), Item.metro (ace_listed 1))
    = extract_category_and_metro urlparse_sample
        "https://fsr.example/plumbers/austin"
  ∧ usable_name (Item.name (ace_listed 1))
  ∧ Py.strip Py.isspace (Item.name (ace_listed 1)) = Item.name (ace_listed 1).
Proof.
  apply (scrape_record_fields urlparse_sample
           "https://fsr.example/plumbers/austin" sample_page).
  vm_compute. apply list_elem_of_here.
Defined.

(** ** The records of all pages *)

Lemma collect_nil urlparse fetch urls :
  collect_all_data urlparse fetch urls = []
  ↔ Forall (λ url, scrape_company_data urlparse url (fetch url) = []) urls.
Proof.
  unfold collect_all_data. induction urls as [|u us IH]; cbn [flat_map].
  - split; [constructor|reflexivity].
  - rewrite app_nil, Forall_cons, IH. reflexivity.
Qed.

Lemma elem_of_collect urlparse fetch urls it :
  it ∈ collect_all_data urlparse fetch urls
  ↔ ∃ url, url ∈ urls ∧ it ∈ scrape_company_data urlparse url (fetch url).
Proof.
  unfold collect_all_data. induction urls as [|u us IH]; cbn [flat_map].
  - split; [intros []%elem_of_nil|intros (? & []%elem_of_nil & _)].
  - rewrite elem_of_app, IH. split.
    + intros [Hin|(url & Hu & Hin)].
      * exists u. split; [left|done].
      * exists url. split; [by right|done].
    + intros (url & [->|Hu]%elem_of_cons & Hin); [by left|].
      right. by exists url.
Qed.

(** X9. [main] builds a report exactly when some page gave a record:
    when every request raised, answered with a status other than 200 or
    showed no block with a usable name, it shows the warning, whatever
    the reference table holds; otherwise it reports on the records of all
    pages. *)
Theorem main_warns_iff_no_page_gave_records
    (urlparse : string → option ParseResult) (fetch : string → response)
    (number_text : list cell → Z → string)
    (df : list Input.t) (urls : list string) :
  let all_data := collect_all_data urlparse fetch urls in
  (Forall (λ url, scrape_company_data urlparse url (fetch url) = []) urls →
   main number_text df all_data = Warning "No company data was found.")
  ∧ (¬ Forall (λ url, scrape_company_data urlparse url (fetch url) = []) urls →
     main number_text df all_data
     = Report (final_df number_text all_data df) ∧ all_data ≠ []).
Proof.
  cbn zeta. split.
  - intros Hall%collect_nil. rewrite Hall. reflexivity.
  - intros Hsome. rewrite <- collect_nil in Hsome.
    destruct (collect_all_data urlparse fetch urls); [done|]. done.
Qed.

Lemma main_warns_iff_no_page_gave_records_witness :
  main number_text_sample [ace]
    (collect_all_data urlparse_sample fetch_sample
                ["https://fsr.example/tires/dallas";
                 "https://fsr.example/hvac-repair"])
  = Warning "No company data was found.".
Proof.
  apply (main_warns_iff_no_page_gave_records urlparse_sample fetch_sample
           number_text_sample).
  repeat constructor.
Defined.

Lemma strictly_sorted_NoDup (l : list Z) : StronglySorted Z.lt l → NoDup l.
Proof.
  induction l as [|x l IH]; [constructor|].
  rewrite StronglySorted_cons, NoDup_cons, Forall_forall.
  intros [Hlt Hs]. split; [|by apply IH].
  intros Hin. specialize (Hlt x Hin). lia.
Qed.

Lemma scrape_positions_sorted urlparse url resp :
  StronglySorted Z.lt
    (Item.position <$> scrape_company_data urlparse url resp).
Proof.
  unfold scrape_company_data. destruct resp as [|code blocks]; [constructor|].
  destruct (negb (code =? 200)); [constructor|].
  destruct (extract_category_and_metro urlparse url) as [category metro].
  apply scrape_blocks_positions.
Qed.

Lemma scrape_url urlparse url resp it :
  it ∈ scrape_company_data urlparse url resp → Item.url it = url.
Proof.
  unfold scrape_company_data. destruct resp as [|code blocks];
    [intros []%elem_of_nil|].
  destruct (negb (code =? 200)); [intros []%elem_of_nil|].
  destruct (extract_category_and_metro urlparse url) as [category metro].
  intros Hin.
  pose proof (scrape_blocks_fields url category metro 1 blocks) as Hf.
  rewrite Forall_forall in Hf. by destruct (Hf it Hin).
Qed.

(** X10. When the URLs to scrape are pairwise distinct, as the elements
    of the set built by [extract_category_urls] are, no two of the
    collected records have both the same URL and the same position, and
    every record carries one of the URLs that were scraped. *)
Theorem collected_records_distinct
    (urlparse : string → option ParseResult) (fetch : string → response)
    (urls : list string) :
  NoDup urls →
  NoDup ((λ it, (Item.url it, Item.position it))
           <$> collect_all_data urlparse fetch urls)
  ∧ Forall (λ it, Item.url it ∈ urls) (collect_all_data urlparse fetch urls).
Proof.
  intros Hnd. split.
  - unfold collect_all_data.
    induction urls as [|u us IH]; [constructor|].
    apply NoDup_cons in Hnd as [Hfresh Hnd].
    cbn [flat_map]. rewrite fmap_app. apply NoDup_app. split; [|split].
    + apply (NoDup_fmap_1 snd). rewrite <- list_fmap_compose.
      apply strictly_sorted_NoDup, scrape_positions_sorted.
    + intros [u' p] (it & [= -> ->] & Hit)%list_elem_of_fmap
        (it' & [= Hu' _] & Hit')%list_elem_of_fmap.
      apply scrape_url in Hit.
      apply (elem_of_collect urlparse fetch us) in Hit' as (url & Hurl & Hit').
      apply scrape_url in Hit'. apply Hfresh. congruence.
    + by apply IH.
  - apply Forall_forall. intros it (url & Hurl & Hit)%elem_of_collect.
    apply scrape_url in Hit. by rewrite Hit.
Qed.

Lemma collected_records_distinct_witness :
  NoDup ((λ it, (Item.url it, Item.position it))
           <$> collect_all_data urlparse_sample fetch_sample
                 ["https://fsr.example/plumbers/austin";
                  "https://fsr.example/hvac-repair"]).
Proof.
  apply (collected_records_distinct urlparse_sample fetch_sample).
  apply (bool_decide_unpack _). vm_compute. reflexivity.
Defined.

(** ** Splitting a path *)

Lemma split_parts_no_sep sep s :
  Forall (λ part, all_chars (λ c, negb (Ascii.eqb c sep)) part = true)
    (Py.split sep s).
Proof.
  induction s as [|c s IH]; [by repeat constructor|].
  cbn [Py.split]. destruct (Ascii.eqb c sep) eqn:Hc.
  - constructor; [reflexivity|exact IH].
  - destruct (Py.split sep s) as [|h t]; [by repeat constructor; cbn; rewrite Hc|].
    apply Forall_cons in IH as [Hh Ht].
    constructor; [|exact Ht]. cbn [all_chars]. by rewrite Hc, Hh.
Qed.

Lemma split_not_nil sep s : Py.split sep s ≠ [].
Proof.
  destruct s as [|c s]; [discriminate|]. cbn [Py.split].
  destruct (Ascii.eqb c sep); [discriminate|].
  destruct (Py.split sep s); discriminate.
Qed.

Lemma split_app sep a t :
  all_chars (λ c, negb (Ascii.eqb c sep)) a = true →
  Py.split sep (a +:+ String sep t) = a :: Py.split sep t.
Proof.
  induction a as [|c a IH]; rewrite ?app_cons, ?app_empty.
  - intros _. cbn [Py.split]. by rewrite Ascii.eqb_refl.
  - cbn [all_chars Py.split]. intros [Hc Ha]%andb_prop.
    apply negb_true_iff in Hc. rewrite Hc, IH by exact Ha. reflexivity.
Qed.

Lemma split_plain sep a :
  all_chars (λ c, negb (Ascii.eqb c sep)) a = true → Py.split sep a = [a].
Proof.
  induction a as [|c a IH]; [reflexivity|].
  cbn [all_chars Py.split]. intros [Hc Ha]%andb_prop.
  apply negb_true_iff in Hc. rewrite Hc, IH by exact Ha. reflexivity.
Qed.

Lemma prefix_char a c s :
  String.prefix (String a "") (String c s) = Ascii.eqb c a.
Proof.
  cbn [String.prefix]. destruct (ascii_dec a c) as [<-|Hne].
  - rewrite Ascii.eqb_refl. destruct s; reflexivity.
  - symmetry. apply Ascii.eqb_neq. congruence.
Qed.

(** Replacing one character by another, character by character. *)
Lemma replace_char_cons a b c s :
  Py.replace (String a "") (String b "") (String c s)
  = String (if Ascii.eqb c a then b else c)
      (Py.replace (String a "") (String b "") s).
Proof.
  unfold Py.replace. cbn [Py.scan]. rewrite prefix_char.
  destruct (Ascii.eqb c a); reflexivity.
Qed.

Lemma replace_hyphen_label s :
  all_chars not_slash s = true →
  all_chars label_char (Py.replace "-" " " s) = true.
Proof.
  induction s as [|c s IH]; [reflexivity|].
  cbn [all_chars]. intros [Hc Hs]%andb_prop.
  rewrite replace_char_cons. cbn [all_chars]. rewrite IH by exact Hs.
  rewrite andb_true_r. unfold label_char, not_slash, is_slash in *.
  destruct (Ascii.eqb c "-") eqn:Hh; [reflexivity|].
  rewrite Hc, Hh. reflexivity.
Qed.

Lemma nth_parts_no_slash i s :
  all_chars not_slash (nth i (Py.split "/" s) "") = true.
Proof.
  pose proof (split_parts_no_sep "/" s) as Hall.
  rewrite Forall_forall in Hall.
  destruct (nth_in_or_default i (Py.split "/" s) "") as [Hin| ->];
    [|reflexivity].
  apply Hall. by apply list_elem_of_In.
Qed.

(** X11. The two labels derived from a URL never hold a slash or a
    hyphen, whether they come from path segments or are the fallback
    [unknown]. *)
Theorem labels_without_slash_or_hyphen
    (urlparse : string → option ParseResult) (url : string) :
  all_chars label_char (extract_category_and_metro urlparse url).1 = true
  ∧ all_chars label_char (extract_category_and_metro urlparse url).2 = true.
Proof.
  unfold extract_category_and_metro.
  destruct (urlparse url) as [parsed|]; [|split; reflexivity].
  cbn zeta. cbn [fst snd]. split.
  - destruct (0 <? _)%nat; [|reflexivity].
    apply replace_hyphen_label, nth_parts_no_slash.
  - destruct (1 <? _)%nat; [|reflexivity].
    apply replace_hyphen_label, nth_parts_no_slash.
Qed.

(** ** Stripping a path *)

Lemma app_empty_r a : a +:+ "" = a.
Proof. induction a as [|c a IH]; [reflexivity|]. by rewrite app_cons, IH. Qed.

Lemma app_nonempty a b : a ≠ "" → a +:+ b ≠ "".
Proof. destruct a; [done|]. by rewrite app_cons. Qed.

Lemma rstrip_cons_keep p c y :
  p c = false → Py.rstrip p (String c y) = String c (Py.rstrip p y).
Proof.
  intros Hc. cbn [Py.rstrip]. rewrite Hc.
  destruct (Py.rstrip p y); reflexivity.
Qed.

Lemma rstrip_cons_nonempty p c y :
  Py.rstrip p y ≠ "" → Py.rstrip p (String c y) = String c (Py.rstrip p y).
Proof.
  intros Hy. cbn [Py.rstrip]. destruct (Py.rstrip p y); [done|reflexivity].
Qed.

Lemma rstrip_app_plain p x y :
  all_chars (λ c, negb (p c)) x = true →
  Py.rstrip p (x +:+ y) = x +:+ Py.rstrip p y.
Proof.
  induction x as [|c x IH]; [reflexivity|].
  cbn [all_chars]. intros [Hc Hx]%andb_prop. apply negb_true_iff in Hc.
  rewrite !app_cons, rstrip_cons_keep, IH by assumption. reflexivity.
Qed.

Lemma rstrip_head p c y :
  Py.rstrip p (String c y) = "" ∨ ∃ r, Py.rstrip p (String c y) = String c r.
Proof.
  cbn [Py.rstrip]. destruct (Py.rstrip p y) as [|d r].
  - destruct (p c); [by left|right; by eexists].
  - right. by eexists.
Qed.

Lemma lstrip_head p s :
  Py.lstrip p s = "" ∨ ∃ c r, Py.lstrip p s = String c r ∧ p c = false.
Proof.
  induction s as [|c s IH]; [by left|]. cbn [Py.lstrip].
  destruct (p c) eqn:Hc; [exact IH|]. right. by exists c, s.
Qed.

Lemma strip_head p s :
  Py.strip p s = "" ∨ ∃ c r, Py.strip p s = String c r ∧ p c = false.
Proof.
  unfold Py.strip. destruct (lstrip_head p s) as [->|(c & r & -> & Hc)];
    [by left|].
  destruct (rstrip_head p c r) as [->|[r' ->]]; [by left|].
  right. by exists c, r'.
Qed.

Lemma lstrip_plain_head p a y :
  a ≠ "" → all_chars (λ c, negb (p c)) a = true →
  Py.lstrip p (a +:+ y) = a +:+ y.
Proof.
  destruct a as [|c a]; [done|]. intros _. cbn [all_chars].
  intros [Hc _]%andb_prop. apply negb_true_iff in Hc.
  rewrite app_cons. cbn [Py.lstrip]. by rewrite Hc.
Qed.

(** The parts of a path that starts with two plain segments. *)
Lemma split_two_segments a b tail :
  a ≠ "" → b ≠ "" →
  all_chars not_slash a = true → all_chars not_slash b = true →
  (tail = "" ∨ ∃ t, tail = "/" +:+ t) →
  ∃ rest,
    Py.split "/" (Py.strip is_slash ("/" +:+ a +:+ "/" +:+ b +:+ tail))
    = a :: b :: rest.
Proof.
  intros Ha Hb Hpa Hpb Htail. unfold Py.strip.
  change ("/" +:+ a +:+ "/" +:+ b +:+ tail)
    with (String "/" (a +:+ String "/" (b +:+ tail))).
  cbn [Py.lstrip]. change (is_slash "/") with true. cbn match.
  rewrite lstrip_plain_head by assumption.
  rewrite rstrip_app_plain by assumption.
  rewrite rstrip_cons_nonempty
    by (rewrite rstrip_app_plain by assumption; by apply app_nonempty).
  rewrite rstrip_app_plain by assumption.
  rewrite (split_app "/") by assumption.
  destruct Htail as [->|[t ->]].
  - exists []. rewrite app_empty_r. by rewrite (split_plain "/").
  - change ("/" +:+ t) with (String "/" t).
    destruct (rstrip_head is_slash "/" t) as [->|[r ->]].
    + exists []. rewrite app_empty_r. by rewrite (split_plain "/").
    + exists (Py.split "/" r). by rewrite (split_app "/").
Qed.

(** X12. For a URL whose path is [/a/b], alone or followed by a slash
    and anything else, [a] and [b] being non-empty and free of slashes,
    the labels are [a] and [b] with every hyphen turned into a space. *)
Theorem labels_of_two_segments
    (urlparse : string → option ParseResult) (url : string)
    (parsed : ParseResult) (a b tail : string) :
  urlparse url = Some parsed →
  path parsed = "/" +:+ a +:+ "/" +:+ b +:+ tail →
  a ≠ "" → b ≠ "" →
  all_chars not_slash a = true → all_chars not_slash b = true →
  (tail = "" ∨ ∃ t, tail = "/" +:+ t) →
  extract_category_and_metro urlparse url
  = (Py.replace "-" " " a, Py.replace "-" " " b).
Proof.
  intros Hparse Hpath Ha Hb Hpa Hpb Htail.
  destruct (split_two_segments a b tail Ha Hb Hpa Hpb Htail) as [rest Hsplit].
  unfold extract_category_and_metro. rewrite Hparse, Hpath, Hsplit.
  reflexivity.
Qed.

Lemma labels_of_two_segments_witness :
  extract_category_and_metro urlparse_profiles
    "https://fsr.example/hvac-repair/san-antonio"
  = (Py.replace "-" " " "hvac-repair", Py.replace "-" " " "san-antonio").
Proof.
  apply (labels_of_two_segments urlparse_profiles
           "https://fsr.example/hvac-repair/san-antonio"
           {| scheme := "https"; netloc := "fsr.example";
              path := "/hvac-repair/san-antonio" |}
           "hvac-repair" "san-antonio" "");
    try reflexivity; try discriminate.
  by left.
Defined.

(** ** The category pages derived from the reference table *)

Lemma elem_of_unique_from seen column c :
  c ∈ unique_from seen column ↔ c ∈ column ∧ c ∉ seen.
Proof.
  revert seen. induction column as [|x rest IH]; intros seen;
    cbn [unique_from].
  - split; [intros []%elem_of_nil|intros [[]%elem_of_nil _]].
  - destruct (decide (x ∈ seen)) as [Hx|Hx].
    + rewrite IH, elem_of_cons. split; [tauto|].
      intros [[->|Hin] Hc]; [done|tauto].
    + rewrite !elem_of_cons, IH, elem_of_cons.
      destruct (decide (c = x)) as [->|Hne]; [tauto|tauto].
Qed.

Lemma elem_of_unique column c : c ∈ unique column ↔ c ∈ column.
Proof.
  unfold unique. rewrite elem_of_unique_from. split; [tauto|].
  intros Hc. split; [exact Hc|]. apply not_elem_of_nil.
Qed.

Lemma length_unique_from seen column :
  (length (unique_from seen column) ≤ length column)%nat.
Proof.
  revert seen. induction column as [|x rest IH]; intros seen;
    cbn [unique_from length]; [lia|].
  destruct (decide (x ∈ seen)); cbn [length];
    [specialize (IH seen)|specialize (IH (x :: seen))]; lia.
Qed.

Lemma elem_of_base_urls urlparse acc l u :
  u ∈ foldl (add_base_url urlparse) acc l
  ↔ u ∈ acc ∨ ∃ c, c ∈ l ∧ base_url_of urlparse c = Some u.
Proof.
  revert acc. induction l as [|x l IH]; intros acc; cbn [foldl].
  - split; [by left|]. intros [?|(c & []%elem_of_nil & _)]; done.
  - rewrite IH. unfold add_base_url.
    destruct (base_url_of urlparse x) as [v|] eqn:Hx.
    + rewrite elem_of_union, elem_of_singleton. split.
      * intros [[->|Hacc]|(c & Hc & Hu)].
        -- right. exists x. split; [left|done].
        -- by left.
        -- right. exists c. split; [by right|done].
      * intros [Hacc|(c & [->|Hc]%elem_of_cons & Hu)].
        -- left. by right.
        -- left. left. congruence.
        -- right. by exists c.
    + split.
      * intros [Hacc|(c & Hc & Hu)]; [by left|].
        right. exists c. split; [by right|done].
      * intros [Hacc|(c & [->|Hc]%elem_of_cons & Hu)];
          [by left|congruence|]. right. by exists c.
Qed.

Lemma size_base_urls urlparse acc l :
  (size (foldl (add_base_url urlparse) acc l) ≤ size acc + length l)%nat.
Proof.
  revert acc. induction l as [|x l IH]; intros acc; cbn [foldl length]; [lia|].
  etransitivity; [apply IH|]. unfold add_base_url.
  destruct (base_url_of urlparse x) as [v|]; [|lia].
  rewrite size_union_alt, size_singleton.
  assert (Hsub : acc ∖ {[v]} ⊆ acc)
    by (intros y [Hy _]%elem_of_difference; exact Hy).
  apply subseteq_size in Hsub. lia.
Qed.

Lemma elem_of_extract_category_urls urlparse column u :
  u ∈ extract_category_urls urlparse column
  ↔ ∃ c, c ∈ column ∧ base_url_of urlparse c = Some u.
Proof.
  unfold extract_category_urls. rewrite elem_of_base_urls. split.
  - intros [[]%elem_of_empty|(c & Hc & Hu)]. exists c. split; [|done].
    apply (proj1 (elem_of_unique _ _)) in Hc.
    by apply list_elem_of_filter in Hc as [_ ?].
  - intros (c & Hc & Hu). right. exists c. split; [|done].
    apply elem_of_unique, list_elem_of_filter. split; [|done].
    intros ->. discriminate Hu.
Qed.

Lemma base_url_of_Some urlparse c u :
  base_url_of urlparse c = Some u
  ↔ ∃ full_url parsed p0 p1 rest,
      c = Str full_url ∧ urlparse full_url = Some parsed
      ∧ Py.split "/" (Py.strip is_slash (path parsed)) = p0 :: p1 :: rest
      ∧ u = scheme parsed +:+ "://" +:+ netloc parsed +:+ "/"
            +:+ p0 +:+ "/" +:+ p1.
Proof.
  split.
  - destruct c as [|z|full_url]; [discriminate..|]. cbn [base_url_of].
    destruct (urlparse full_url) as [parsed|] eqn:Hparse; [|discriminate].
    cbn zeta.
    destruct (Py.split "/" (Py.strip is_slash (path parsed)))
      as [|p0 [|p1 rest]] eqn:Hsplit; [discriminate..|].
    cbn. intros [= <-]. by exists full_url, parsed, p0, p1, rest.
  - intros (full_url & parsed & p0 & p1 & rest & -> & Hparse & Hsplit & ->).
    cbn [base_url_of]. rewrite Hparse. cbn zeta. rewrite Hsplit. reflexivity.
Qed.

(** X13. A base URL is in the set that [extract_category_urls] builds
    exactly when some cell of the column is a string that [urlparse]
    accepts and whose path, stripped of slashes at both ends, splits into
    at least two parts; the URL is then the scheme, the host and the
    first two parts. Missing values, numbers, strings that [urlparse]
    rejects and paths with fewer than two parts add nothing. *)
Theorem category_urls_characterised
    (urlparse : string → option ParseResult) (column : list cell)
    (u : string) :
  u ∈ extract_category_urls urlparse column
  ↔ ∃ full_url parsed p0 p1 rest,
      Str full_url ∈ column ∧ urlparse full_url = Some parsed
      ∧ Py.split "/" (Py.strip is_slash (path parsed)) = p0 :: p1 :: rest
      ∧ u = scheme parsed +:+ "://" +:+ netloc parsed +:+ "/"
            +:+ p0 +:+ "/" +:+ p1.
Proof.
  rewrite elem_of_extract_category_urls. split.
  - intros (c & Hc & Hu). apply base_url_of_Some in Hu
      as (full_url & parsed & p0 & p1 & rest & -> & Hrest).
    by exists full_url, parsed, p0, p1, rest.
  - intros (full_url & parsed & p0 & p1 & rest & Hc & Hrest).
    exists (Str full_url). split; [exact Hc|].
    apply base_url_of_Some. by exists full_url, parsed, p0, p1, rest.
Qed.

Lemma category_urls_characterised_witness :
  "https://fsr.example/plumbers/austin"
  ∈ extract_category_urls urlparse_profiles
      [NA; Str "https://fsr.example/about";
       Str "https://fsr.example/plumbers/austin/best-pipes/"].
Proof.
  apply (proj2 (category_urls_characterised urlparse_profiles _ _)).
  exists "https://fsr.example/plumbers/austin/best-pipes/",
    {| scheme := "https"; netloc := "fsr.example";
       path := "/plumbers/austin/best-pipes/" |},
    "plumbers", "austin", ["best-pipes"].
  split; [|by vm_compute].
  apply list_elem_of_In. vm_compute. tauto.
Defined.

(** X14. The set of pages depends only on which values occur in the
    column, not on their order or on how often they occur, and it has at
    most as many elements as the column has values that are present. *)
Theorem category_urls_order_and_size
    (urlparse : string → option ParseResult) (column column' : list cell) :
  ((∀ c, c ∈ column ↔ c ∈ column') →
   extract_category_urls urlparse column
   = extract_category_urls urlparse column')
  ∧ (size (extract_category_urls urlparse column)
     ≤ length (dropna column))%nat.
Proof.
  split.
  - intros Hsame. apply set_eq. intros u.
    rewrite !elem_of_extract_category_urls.
    split; intros (c & Hc & Hu); exists c; by rewrite ?Hsame in *.
  - unfold extract_category_urls.
    etransitivity; [apply size_base_urls|].
    rewrite size_empty. cbn. apply length_unique_from.
Qed.

Lemma category_urls_order_and_size_witness :
  extract_category_urls urlparse_profiles
    [Str "https://fsr.example/plumbers/austin/ace-plumbing";
     Str "https://fsr.example/hvac-repair/san-antonio"]
  = extract_category_urls urlparse_profiles
      [Str "https://fsr.example/hvac-repair/san-antonio";
       Str "https://fsr.example/plumbers/austin/ace-plumbing";
       Str "https://fsr.example/hvac-repair/san-antonio"].
Proof.
  apply (category_urls_order_and_size urlparse_profiles).
  intros c. rewrite !elem_of_cons, !elem_of_nil. tauto.
Defined.

Lemma split_head_nonempty sep c r :
  Ascii.eqb c sep = false →
  ∃ h t, Py.split sep (String c r) = String c h :: t.
Proof.
  intros Hc. cbn [Py.split]. rewrite Hc.
  destruct (Py.split sep r) as [|h t]; by eexists _, _.
Qed.

(** The first two parts of a stripped path, when there are two. *)
Lemma two_parts_shape s p0 p1 rest :
  Py.split "/" (Py.strip is_slash s) = p0 :: p1 :: rest →
  p0 ≠ "" ∧ all_chars not_slash p0 = true ∧ all_chars not_slash p1 = true.
Proof.
  intros Hsplit. split; [|split].
  - destruct (strip_head is_slash s) as [Hnil|(c & r & Hs & Hc)].
    + rewrite Hnil in Hsplit. discriminate Hsplit.
    + rewrite Hs in Hsplit.
      destruct (split_head_nonempty "/" c r Hc) as (h & t & Hh).
      rewrite Hh in Hsplit. by injection Hsplit as <- _.
  - pose proof (nth_parts_no_slash 0 (Py.strip is_slash s)) as H0.
    by rewrite Hsplit in H0.
  - pose proof (nth_parts_no_slash 1 (Py.strip is_slash s)) as H1.
    by rewrite Hsplit in H1.
Qed.

(** X15. Every base URL that [extract_category_urls] derives has the
    form [scheme://host/p0/p1], where [p0] is not empty and neither [p0]
    nor [p1] holds a slash; [p1] can be empty, for a profile path with a
    doubled slash. *)
Theorem category_urls_shape
    (urlparse : string → option ParseResult) (column : list cell)
    (u : string) :
  u ∈ extract_category_urls urlparse column →
  ∃ scheme netloc p0 p1,
    u = scheme +:+ "://" +:+ netloc +:+ "/" +:+ p0 +:+ "/" +:+ p1
    ∧ p0 ≠ ""
    ∧ all_chars not_slash p0 = true ∧ all_chars not_slash p1 = true.
Proof.
  intros (c & _ & Hu)%elem_of_extract_category_urls.
  apply base_url_of_Some in Hu
    as (full_url & parsed & p0 & p1 & rest & _ & _ & Hsplit & ->).
  exists (scheme parsed), (netloc parsed), p0, p1.
  split; [reflexivity|]. by apply two_parts_shape in Hsplit.
Qed.

Lemma category_urls_shape_witness :
  ∃ scheme netloc p0 p1,
    "https://fsr.example/plumbers/austin"
    = scheme +:+ "://" +:+ netloc +:+ "/" +:+ p0 +:+ "/" +:+ p1
    ∧ p0 ≠ ""
    ∧ all_chars not_slash p0 = true ∧ all_chars not_slash p1 = true.
Proof.
  apply (category_urls_shape urlparse_profiles
           [Str "https://fsr.example/plumbers/austin/ace-plumbing"]).
  vm_compute. reflexivity.
Defined.

(** X16. The labels of a derived page are those of the profile URL it
    was derived from. For a profile URL in the column that parses, with
    first parts [p0] and [p1], [p1] not empty: the base URL
    [scheme://host/p0/p1] is among the pages to scrape, and if [urlparse]
    reads it back with the path [/p0/p1], then
    [extract_category_and_metro] gives for it the same category and metro
    as for the profile URL. *)
Theorem derived_page_labels
    (urlparse : string → option ParseResult) (column : list cell)
    (full_url : string) (parsed parsed' : ParseResult)
    (p0 p1 : string) (rest : list string) :
  Str full_url ∈ column →
  urlparse full_url = Some parsed →
  Py.split "/" (Py.strip is_slash (path parsed)) = p0 :: p1 :: rest →
  p1 ≠ "" →
  let base_url := scheme parsed +:+ "://" +:+ netloc parsed +:+ "/"
                  +:+ p0 +:+ "/" +:+ p1 in
  urlparse base_url = Some parsed' →
  path parsed' = "/" +:+ p0 +:+ "/" +:+ p1 →
  base_url ∈ extract_category_urls urlparse column
  ∧ extract_category_and_metro urlparse base_url
    = extract_category_and_metro urlparse full_url.
Proof.
  intros Hc Hparse Hsplit Hp1 base_url Hparse' Hpath'. split.
  - apply elem_of_extract_category_urls. exists (Str full_url).
    split; [exact Hc|]. apply base_url_of_Some.
    by exists full_url, parsed, p0, p1, rest.
  - destruct (two_parts_shape _ _ _ _ Hsplit) as (Hp0 & Hs0 & Hs1).
    destruct (split_two_segments p0 p1 "" Hp0 Hp1 Hs0 Hs1) as [rest' Hsplit'];
      [by left|].
    rewrite app_empty_r in Hsplit'.
    unfold extract_category_and_metro at 1. rewrite Hparse', Hpath', Hsplit'.
    unfold extract_category_and_metro. rewrite Hparse, Hsplit. reflexivity.
Qed.

Lemma derived_page_labels_witness :
  "https://fsr.example/plumbers/austin"
  ∈ extract_category_urls urlparse_site
      [Str "https://fsr.example/plumbers/austin/ace-plumbing"]
  ∧ extract_category_and_metro urlparse_site
      "https://fsr.example/plumbers/austin"
    = extract_category_and_metro urlparse_site
        "https://fsr.example/plumbers/austin/ace-plumbing".
Proof.
  apply (derived_page_labels urlparse_site
           [Str "https://fsr.example/plumbers/austin/ace-plumbing"]
           "https://fsr.example/plumbers/austin/ace-plumbing"
           {| scheme := "https"; netloc := "fsr.example";
              path := "/plumbers/austin/ace-plumbing" |}
           {| scheme := "https"; netloc := "fsr.example";
              path := "/plumbers/austin" |}
           "plumbers" "austin" ["ace-plumbing"]).
  - apply list_elem_of_singleton. reflexivity.
  - reflexivity.
  - reflexivity.
  - discriminate.
  - reflexivity.
  - reflexivity.
Defined.

(** ** What the normaliser ignores *)

Lemma all_space_app a b :
  Spec.all_space (a +:+ b) = Spec.all_space a && Spec.all_space b.
Proof.
  induction a as [|c a IH]; [reflexivity|].
  rewrite app_cons. cbn [Spec.all_space]. by rewrite IH, andb_assoc.
Qed.

Lemma lowercase_app a b :
  Spec.lowercase (a +:+ b) = Spec.lowercase a +:+ Spec.lowercase b.
Proof.
  induction a as [|c a IH]; [reflexivity|].
  rewrite app_cons. cbn [Spec.lowercase]. by rewrite IH.
Qed.

Lemma ampersand_to_and_app a b :
  Spec.ampersand_to_and (a +:+ b)
  = Spec.ampersand_to_and a +:+ Spec.ampersand_to_and b.
Proof.
  induction a as [|c a IH]; [reflexivity|].
  rewrite app_cons. cbn [Spec.ampersand_to_and]. rewrite IH.
  destruct (Ascii.eqb c "&"); reflexivity.
Qed.

Lemma keep_word_and_space_app a b :
  Spec.keep_word_and_space (a +:+ b)
  = Spec.keep_word_and_space a +:+ Spec.keep_word_and_space b.
Proof.
  induction a as [|c a IH]; [reflexivity|].
  rewrite app_cons. cbn [Spec.keep_word_and_space]. rewrite IH.
  destruct (Py.isword c || Py.isspace c); reflexivity.
Qed.

(** The three character-wise steps together. *)
Lemma per_char_steps_app a b :
  Spec.keep_word_and_space (Spec.ampersand_to_and (Spec.lowercase (a +:+ b)))
  = Spec.keep_word_and_space (Spec.ampersand_to_and (Spec.lowercase a))
    +:+ Spec.keep_word_and_space (Spec.ampersand_to_and (Spec.lowercase b)).
Proof.
  by rewrite lowercase_app, ampersand_to_and_app, keep_word_and_space_app.
Qed.

Lemma space_char_steps c :
  Py.isspace c = true →
  Py.lower_char c = c ∧ Ascii.eqb c "&" = false.
Proof. each_char c; intros; split; congruence. Qed.

Lemma per_char_steps_space w :
  Spec.all_space w = true →
  Spec.keep_word_and_space (Spec.ampersand_to_and (Spec.lowercase w)) = w.
Proof.
  induction w as [|c w IH]; [reflexivity|].
  cbn [Spec.all_space]. intros [Hc Hw]%andb_prop.
  destruct (space_char_steps c Hc) as [Hlow Hamp].
  cbn [Spec.lowercase Spec.ampersand_to_and]. rewrite Hlow, Hamp.
  cbn [Spec.keep_word_and_space]. rewrite Hc, orb_true_r, IH by exact Hw.
  reflexivity.
Qed.

Lemma punctuation_steps c :
  Py.isword c = false → Py.isspace c = false → Ascii.eqb c "&" = false →
  Py.lower_char c = c.
Proof. each_char c; congruence. Qed.

Lemma drop_leading_collapse_any t :
  Spec.drop_leading (Spec.collapse true t)
  = Spec.drop_leading (Spec.collapse false t).
Proof.
  destruct t as [|c t]; [reflexivity|]. cbn [Spec.collapse].
  destruct (Py.isspace c); reflexivity.
Qed.

Lemma drop_leading_collapse_spaces b w t :
  Spec.all_space w = true →
  Spec.drop_leading (Spec.collapse b (w +:+ t))
  = Spec.drop_leading (Spec.collapse true t).
Proof.
  revert b. induction w as [|c w IH]; intros b.
  - intros _. rewrite app_empty. destruct b; [reflexivity|].
    symmetry. apply drop_leading_collapse_any.
  - cbn [Spec.all_space]. intros [Hc Hw]%andb_prop.
    rewrite app_cons. cbn [Spec.collapse]. rewrite Hc.
    destruct b; [by apply IH|]. cbn [Spec.drop_leading].
    change (Py.isspace " ") with true. cbn match. by apply IH.
Qed.

Lemma collapse_spaces_all_space b w :
  Spec.all_space w = true → Spec.all_space (Spec.collapse b w) = true.
Proof.
  revert b. induction w as [|c w IH]; intros b; [reflexivity|].
  cbn [Spec.all_space Spec.collapse]. intros [Hc Hw]%andb_prop.
  rewrite Hc. destruct b; [by apply IH|].
  cbn [Spec.all_space]. by rewrite IH.
Qed.

Lemma collapse_app_spaces b t w :
  Spec.all_space w = true →
  ∃ e, Spec.all_space e = true
       ∧ Spec.collapse b (t +:+ w) = Spec.collapse b t +:+ e.
Proof.
  intros Hw. revert b. induction t as [|c t IH]; intros b.
  - exists (Spec.collapse b w). split; [by apply collapse_spaces_all_space|].
    reflexivity.
  - rewrite app_cons. cbn [Spec.collapse].
    destruct (Py.isspace c); [destruct b|].
    + apply IH.
    + destruct (IH true) as (e & He & ->). by exists e.
    + destruct (IH false) as (e & He & ->). by exists e.
Qed.

Lemma drop_leading_all_space w :
  Spec.all_space w = true → Spec.drop_leading w = "".
Proof.
  induction w as [|c w IH]; [reflexivity|].
  cbn [Spec.all_space Spec.drop_leading]. intros [-> Hw]%andb_prop. auto.
Qed.

Lemma drop_leading_app_spaces x e :
  Spec.all_space e = true →
  ∃ e', Spec.all_space e' = true
        ∧ Spec.drop_leading (x +:+ e) = Spec.drop_leading x +:+ e'.
Proof.
  intros He. induction x as [|c x IH].
  - exists "". split; [reflexivity|]. rewrite app_empty.
    by apply drop_leading_all_space.
  - rewrite app_cons. cbn [Spec.drop_leading].
    destruct (Py.isspace c); [exact IH|]. by exists e.
Qed.

Lemma drop_trailing_all_space w :
  Spec.all_space w = true → Spec.drop_trailing w = "".
Proof.
  destruct w as [|c w]; [reflexivity|]. cbn [Spec.drop_trailing].
  by intros ->.
Qed.

Lemma drop_trailing_app_spaces y e :
  Spec.all_space e = true →
  Spec.drop_trailing (y +:+ e) = Spec.drop_trailing y.
Proof.
  intros He. induction y as [|c y IH].
  - rewrite app_empty. by apply drop_trailing_all_space.
  - rewrite app_cons. cbn [Spec.drop_trailing Spec.all_space].
    rewrite all_space_app, He, andb_true_r, IH. reflexivity.
Qed.

Lemma tidy_leading_spaces w t :
  Spec.all_space w = true →
  Spec.trim (Spec.collapse false (w +:+ t))
  = Spec.trim (Spec.collapse false t).
Proof.
  intros Hw. unfold Spec.trim.
  by rewrite drop_leading_collapse_spaces, drop_leading_collapse_any.
Qed.

Lemma tidy_trailing_spaces t w :
  Spec.all_space w = true →
  Spec.trim (Spec.collapse false (t +:+ w))
  = Spec.trim (Spec.collapse false t).
Proof.
  intros Hw. unfold Spec.trim.
  destruct (collapse_app_spaces false t w Hw) as (e & He & ->).
  destruct (drop_leading_app_spaces (Spec.collapse false t) e He)
    as (e' & He' & ->).
  by apply drop_trailing_app_spaces.
Qed.

Lemma lstrip_split s :
  ∃ w, Spec.all_space w = true ∧ s = w +:+ Py.lstrip Py.isspace s.
Proof.
  induction s as [|c s (w & Hw & Hs)]; [by exists ""|].
  cbn [Py.lstrip]. destruct (Py.isspace c) eqn:Hc; [|by exists ""].
  exists (String c w). split; [cbn; by rewrite Hc, Hw|].
  rewrite app_cons. by rewrite <- Hs.
Qed.

Lemma rstrip_split s :
  ∃ w, Spec.all_space w = true ∧ s = Py.rstrip Py.isspace s +:+ w.
Proof.
  induction s as [|c s (w & Hw & Hs)]; [by exists ""|].
  cbn [Py.rstrip]. destruct (Py.rstrip Py.isspace s) as [|d r] eqn:Hr.
  - rewrite app_empty in Hs. subst w.
    destruct (Py.isspace c) eqn:Hc.
    + exists (String c s). split; [cbn; by rewrite Hc, Hw|reflexivity].
    + exists s. by split.
  - exists w. split; [exact Hw|]. rewrite app_cons. by rewrite <- Hs.
Qed.

Lemma steps_lstrip s : Spec.steps (Py.lstrip Py.isspace s) = Spec.steps s.
Proof.
  destruct (lstrip_split s) as (w & Hw & Hs). rewrite Hs at 2.
  unfold Spec.steps. rewrite per_char_steps_app.
  rewrite (per_char_steps_space w) by done.
  symmetry. by apply tidy_leading_spaces.
Qed.

Lemma steps_rstrip s : Spec.steps (Py.rstrip Py.isspace s) = Spec.steps s.
Proof.
  destruct (rstrip_split s) as (w & Hw & Hs). rewrite Hs at 2.
  unfold Spec.steps. rewrite per_char_steps_app.
  rewrite (per_char_steps_space w) by done.
  symmetry. by apply tidy_trailing_spaces.
Qed.

Lemma lowercase_idem s : Spec.lowercase (Spec.lowercase s) = Spec.lowercase s.
Proof.
  induction s as [|c s IH]; [reflexivity|].
  cbn [Spec.lowercase]. by rewrite lower_char_idem, IH.
Qed.

(** X17. The key does not depend on letter case or on whitespace around
    the text: lowercasing a string first, or stripping it first as
    [scrape_company_data] does with a listed name, gives the same key. *)
Theorem normalize_ignores_case_and_margins (s : string) :
  normalize (Str (Py.lower s)) = normalize (Str s)
  ∧ normalize (Str (Py.strip Py.isspace s)) = normalize (Str s).
Proof.
  rewrite !normalize_str. split.
  - unfold Spec.steps. rewrite (lower_lowercase s), (lowercase_idem s).
    reflexivity.
  - unfold Py.strip. by rewrite steps_rstrip, steps_lstrip.
Qed.

(** X18. On text made of code points below 256, where lowercasing works
    character by character, the key ignores punctuation other than [&]: a
    character that is neither a word character, nor whitespace, nor [&]
    can be removed from a string, anywhere, without changing its key. *)
Theorem normalize_ignores_punctuation (a b : string) (c : ascii) :
  Py.isword c = false → Py.isspace c = false → Ascii.eqb c "&" = false →
  normalize (Str (a +:+ String c b)) = normalize (Str (a +:+ b)).
Proof.
  intros Hw Hs Hamp. rewrite !normalize_str. unfold Spec.steps.
  rewrite !per_char_steps_app. do 3 f_equal.
  cbn [Spec.lowercase Spec.ampersand_to_and].
  rewrite (punctuation_steps c Hw Hs Hamp), Hamp.
  cbn [Spec.keep_word_and_space]. by rewrite Hw, Hs.
Qed.

Lemma normalize_ignores_punctuation_witness :
  normalize (Str ("Bob" +:+ String "'" "s Tires"))
  = normalize (Str ("Bob" +:+ "s Tires")).
Proof.
  apply (normalize_ignores_punctuation "Bob" "s Tires" "'"); reflexivity.
Defined.

(** ** The metro column as text *)

(** X19. Turning the reference [Metro] column into text (missing values
    become the empty string) does not change the Match Key of a row whose
    metro is text or missing, and doing it twice changes nothing more. *)
Theorem metro_as_str_keeps_key (number_str : Z → string) (r : Input.t) :
  (∀ z, Input.Metro r ≠ Num z) →
  input_key (metro_as_str number_str r) = input_key r
  ∧ metro_as_str number_str (metro_as_str number_str r)
    = metro_as_str number_str r.
Proof.
  intros Htext. split; [|reflexivity].
  unfold input_key. cbn [metro_as_str Input.PublishedName Input.Category
    Input.Metro].
  destruct (Input.Metro r) as [|z|m]; [reflexivity|by destruct (Htext z)|].
  reflexivity.
Qed.

Lemma metro_as_str_keeps_key_witness :
  input_key (metro_as_str Py.str_of_int nameless) = input_key nameless
  ∧ metro_as_str Py.str_of_int (metro_as_str Py.str_of_int nameless)
    = metro_as_str Py.str_of_int nameless.
Proof.
  apply (metro_as_str_keeps_key Py.str_of_int nameless). discriminate.
Defined.
